(** * Palmer Penguins dashboard: the filter-and-aggregate pipeline

    Shallow embedding of [streamlit_app.py].  The script is straight-line
    glue over pandas and Streamlit calls; every call the script makes is
    modelled by a function of the same name over plain lists.

    Numbers.  The columns hold float64 values.  After [dropna] no cell is
    NaN, so a cell is modelled by a rational ([Q]); comparisons on cells,
    minimum and maximum are exact, as they are on float64.

    The metrics (lines 110-114) are computed in float64: [fl] rounds a
    rational to the nearest float64 (ties to even; the exponent range is
    not modelled), a cell is rounded by [fl] when it enters a sum, the sum
    is accumulated from left to right, and every product and quotient is
    rounded again; [f64] keeps the sign bit, so that a negative zero
    prints as one.

    The per-species means of the bar chart (line 144) are computed by the
    group-by kernel of pandas, whose summation is not in the script; they
    are modelled in exact arithmetic ([mean], [round]) as an [option Q]
    with [None] for NaN. *)

From Stdlib Require Import List String Ascii Bool Arith ZArith QArith Qround Qabs.
From Stdlib Require Import Qpower DecimalPos DecimalN.
From Stdlib Require Import Lia Lqa Sorted Permutation DecimalString.
Import ListNotations.

Local Open Scope Q_scope.
Local Open Scope list_scope.

(** ** Data model *)

(** One row of the loaded frame: the columns the script reads. *)
Record Row := mkRow {
  species : string;
  island : string;
  sex : string;
  bill_length_mm : Q;
  bill_depth_mm : Q;
  body_mass_g : Q
}.

(** A DataFrame is its rows, in index order. *)
Definition DataFrame := list Row.

(** A float that may be NaN. *)
Definition float := option Q.

(** The state of the sidebar widgets (lines 42-69): the three multiselects
    return the list of chosen options, the slider a pair of bounds.  The
    slider is created with integer bounds, so the values it can return are
    integers; they are embedded in [Q] with [inject_Z]. *)
Record Sidebar := mkSidebar {
  sel_species : list string;
  sel_island : list string;
  sel_sex : list string;
  body_mass_slider : Q * Q
}.

(** ** pandas operations used by the script *)

(** [df[col]]: a column as a Series. *)
Definition column {A : Type} (col : Row -> A) (d : DataFrame) : list A :=
  map col d.

(** [Series.unique()]: distinct values in order of first appearance. *)
Fixpoint unique (s : list string) : list string :=
  match s with
  | [] => []
  | v :: s' => v :: filter (fun w => negb (String.eqb w v)) (unique s')
  end.

(** [Series.isin(values)]: a boolean mask. *)
Definition isin (s : list string) (values : list string) : list bool :=
  map (fun v => existsb (String.eqb v) values) s.

(** [Series >= x] and [Series <= x]. *)
Definition series_ge (s : list Q) (x : Q) : list bool :=
  map (fun v => Qle_bool x v) s.
Definition series_le (s : list Q) (x : Q) : list bool :=
  map (fun v => Qle_bool v x) s.

(** [mask1 & mask2]. *)
Fixpoint mask_and (m1 m2 : list bool) : list bool :=
  match m1, m2 with
  | b1 :: m1', b2 :: m2' => (b1 && b2) :: mask_and m1' m2'
  | _, _ => []
  end.

(** [df[mask]]: the rows whose mask entry is true, index order kept. *)
Fixpoint getitem (d : DataFrame) (mask : list bool) : DataFrame :=
  match d, mask with
  | r :: d', b :: mask' => if b then r :: getitem d' mask' else getitem d' mask'
  | _, _ => []
  end.

(** Truth value of a Python list: non-empty. *)
Definition truthy {A : Type} (l : list A) : bool :=
  match l with [] => false | _ :: _ => true end.

(** [df.empty]. *)
Definition empty (d : DataFrame) : bool :=
  match d with [] => true | _ :: _ => false end.

(** [df.copy()] on values: the same rows. *)
Definition copy (d : DataFrame) : DataFrame := d.

(** ** Filtering (lines 74-90) *)

Definition df_selection (df : DataFrame) (sb : Sidebar) : DataFrame :=
  let df_selection := copy df in
  let df_selection :=
    if truthy (sel_species sb)
    then getitem df_selection (isin (column species df_selection) (sel_species sb))
    else df_selection in
  let df_selection :=
    if truthy (sel_island sb)
    then getitem df_selection (isin (column island df_selection) (sel_island sb))
    else df_selection in
  let df_selection :=
    if truthy (sel_sex sb)
    then getitem df_selection (isin (column sex df_selection) (sel_sex sb))
    else df_selection in
  getitem df_selection
    (mask_and (series_ge (column body_mass_g df_selection) (fst (body_mass_slider sb)))
              (series_le (column body_mass_g df_selection) (snd (body_mass_slider sb)))).

(** Order-preserving sub-sequence. *)
Inductive Subseq {A : Type} : list A -> list A -> Prop :=
| Subseq_nil : Subseq [] []
| Subseq_keep x l1 l2 : Subseq l1 l2 -> Subseq (x :: l1) (x :: l2)
| Subseq_drop x l1 l2 : Subseq l1 l2 -> Subseq l1 (x :: l2).

(** The four filter predicates on one row. *)
Definition in_selection (sel : list string) (v : string) : Prop :=
  sel = [] \/ In v sel.

Definition in_mass_range (rng : Q * Q) (m : Q) : Prop :=
  (fst rng <= m)%Q /\ (m <= snd rng)%Q.

Definition matches (sb : Sidebar) (r : Row) : Prop :=
  in_selection (sel_species sb) (species r) /\
  in_selection (sel_island sb) (island r) /\
  in_selection (sel_sex sb) (sex r) /\
  in_mass_range (body_mass_slider sb) (body_mass_g r).

(** The same predicates as executable tests. *)
Definition cat_test (sel : list string) (v : string) : bool :=
  if truthy sel then existsb (String.eqb v) sel else true.

Definition mass_test (rng : Q * Q) (m : Q) : bool :=
  Qle_bool (fst rng) m && Qle_bool m (snd rng).

Definition matchesb (sb : Sidebar) (r : Row) : bool :=
  cat_test (sel_species sb) (species r) &&
  cat_test (sel_island sb) (island r) &&
  cat_test (sel_sex sb) (sex r) &&
  mass_test (body_mass_slider sb) (body_mass_g r).

(** ** Aggregates and number formatting (lines 63, 108-114, 144) *)

(** [Series.sum()]. *)
Fixpoint series_sum (s : list Q) : Q :=
  match s with
  | [] => 0
  | v :: s' => v + series_sum s'
  end.

(** [Series.mean()]: NaN on an empty Series. *)
Definition mean (s : list Q) : float :=
  match s with
  | [] => None
  | _ :: _ => Some (series_sum s / inject_Z (Z.of_nat (List.length s)))
  end.

(** [Series.min()] and [Series.max()]: NaN on an empty Series. *)
Definition fmin (m w : Q) : Q := if Qle_bool m w then m else w.
Definition fmax (m w : Q) : Q := if Qle_bool w m then m else w.

Definition series_min (s : list Q) : float :=
  match s with
  | [] => None
  | v :: s' => Some (fold_left fmin s' v)
  end.

Definition series_max (s : list Q) : float :=
  match s with
  | [] => None
  | v :: s' => Some (fold_left fmax s' v)
  end.

(** [int(x)]: truncation toward zero; [None] is the ValueError that
    [int] raises on NaN. *)
Definition int (x : float) : option Z :=
  match x with
  | None => None
  | Some q => Some (Z.quot (Qnum q) (Zpos (Qden q)))
  end.

(** Nearest integer, ties to the even one. *)
Definition rint (x : Q) : Z :=
  let f := Qfloor x in
  match Qcompare (x - inject_Z f) (1 # 2) with
  | Lt => f
  | Gt => (f + 1)%Z
  | Eq => if Z.even f then f else (f + 1)%Z
  end.

(** [Series.round(n)] on one value, in exact arithmetic: the nearest
    multiple of [10^-n], ties to even; NaN stays NaN. *)
Definition round_ndigits (q : Q) (n : nat) : Q :=
  Qred (rint (q * inject_Z (10 ^ Z.of_nat n)) # Z.to_pos (10 ^ Z.of_nat n)%Z).

Definition round (x : float) (n : nat) : float :=
  option_map (fun q => round_ndigits q n) x.

(** *** float64 *)

Definition pow2 (e : Z) : Q := Qpower 2 e.

(** The integer part of the binary logarithm of a positive rational. *)
Definition ilog2 (q : Q) : Z :=
  let k := (Z.log2 (Qnum q) - Z.log2 (Zpos (Qden q)))%Z in
  if Qle_bool (pow2 k) q then k else (k - 1)%Z.

(** The float64 nearest to [q]: 53 significant bits, ties to the even
    significand. *)
Definition fl (q : Q) : Q :=
  let q := Qred q in
  if Qeq_bool q 0 then 0
  else
    let e := (ilog2 (Qabs q) - 52)%Z in
    Qred (inject_Z (rint (q / pow2 e)) * pow2 e).

(** A float64 value: NaN, or a sign bit and a magnitude. *)
Inductive f64 :=
| f64_nan
| f64_fin (neg : bool) (mag : Q).

(** The float64 nearest to a rational. *)
Definition nearest (q : Q) : f64 :=
  f64_fin (negb (Qle_bool 0 q)) (fl (Qabs q)).

(** The sum of a float64 Series, accumulated from left to right. *)
Definition fsum (s : list Q) : Q :=
  fold_left (fun acc v => fl (acc + fl v)) s 0.

(** [Series.mean()] in float64: the sum over the count, NaN on an empty
    Series. *)
Definition fmean (s : list Q) : f64 :=
  match s with
  | [] => f64_nan
  | _ :: _ => nearest (fsum s / inject_Z (Z.of_nat (List.length s)))
  end.

(** [round(x, n)] on a numpy float64: [rint(x * 10^n) / 10^n]. *)
Definition np_round (x : f64) (n : nat) : f64 :=
  match x with
  | f64_nan => f64_nan
  | f64_fin neg mag =>
      let p := inject_Z (10 ^ Z.of_nat n) in
      f64_fin neg (fl (inject_Z (rint (fl (mag * p))) / p))
  end.

(** [x / k] for a positive constant [k]. *)
Definition f64_div (x : f64) (k : Q) : f64 :=
  match x with
  | f64_nan => f64_nan
  | f64_fin neg mag => f64_fin neg (fl (mag / k))
  end.

(** One decimal digit as a character. *)
Definition digit (d : Z) : ascii := ascii_of_nat (48 + Z.to_nat d)%nat.

(** Decimal numeral of a natural number, without leading zeros. *)
Definition numeral (n : Z) : string :=
  NilZero.string_of_uint (N.to_uint (Z.to_N n)).

(** The number of hundredths that [.2f] prints for [q]. *)
Definition hundredths (q : Q) : Z := rint (q * 100).

(** [f"{x:.2f}"]: the sign, then the magnitude rounded to hundredths (ties
    to even, on the exact value of the float64): integer part, a point and
    exactly two digits. *)
Definition format_2f (x : f64) : string :=
  match x with
  | f64_nan => "nan"%string
  | f64_fin neg mag =>
      let n := hundredths mag in
      ((if neg then "-" else "")
       ++ numeral (n / 100)%Z
       ++ "."
       ++ String (digit ((n / 10) mod 10)%Z) (String (digit (n mod 10)%Z) ""))%string
  end.

(** Line 63: the bounds of the body-mass slider.  [None] is the exception
    raised by [int] on NaN, when the frame has no row. *)
Definition min_max_mass (df : DataFrame) : option (Z * Z) :=
  match int (series_min (column body_mass_g df)),
        int (series_max (column body_mass_g df)) with
  | Some min_mass, Some max_mass => Some (min_mass, max_mass)
  | _, _ => None
  end.

(** [st.sidebar.slider(label, min_value, max_value, value)]: Streamlit
    refuses a slider whose [min_value] is not below its [max_value]
    ([None] is the exception it raises); otherwise the widget starts at
    [value]. *)
Definition slider (min_value max_value : Z) (value : Z * Z) : option (Q * Q) :=
  if (min_value <? max_value)%Z
  then Some (inject_Z (fst value), inject_Z (snd value))
  else None.

(** Lines 63-69: the slider before any interaction, when it can be built. *)
Definition default_slider (df : DataFrame) : option (Q * Q) :=
  match min_max_mass df with
  | Some (min_mass, max_mass) => slider min_mass max_mass (min_mass, max_mass)
  | None => None
  end.

(** The sidebar before any user interaction: nothing chosen in the
    multiselects, the slider at its initial value. *)
Definition default_sidebar (df : DataFrame) : option Sidebar :=
  match default_slider df with
  | Some rng => Some (mkSidebar [] [] [] rng)
  | None => None
  end.

(** ** Group-by (line 144) *)

(** Ascending insertion of a key: [groupby] sorts the group keys (its
    default [sort=True]); Python compares strings by code point. *)
Fixpoint insert_key (k : string) (ks : list string) : list string :=
  match ks with
  | [] => [k]
  | k' :: ks' => if String.leb k k' then k :: ks else k' :: insert_key k ks'
  end.

Definition sort_keys (ks : list string) : list string :=
  fold_right insert_key [] ks.

(** [df.groupby(key)]: one group per distinct key, keys ascending, the rows
    of a group in frame order. *)
Definition groupby (key : Row -> string) (d : DataFrame)
  : list (string * DataFrame) :=
  map (fun k => (k, filter (fun r => String.eqb (key r) k) d))
      (sort_keys (unique (column key d))).

(** [df_selection.groupby('species')['body_mass_g'].mean().round(1)]. *)
Definition avg_mass_by_species (d : DataFrame) : list (string * float) :=
  map (fun g => (fst g, round (mean (column body_mass_g (snd g))) 1))
      (groupby species d).

(** ** Rendering (lines 96-153) *)

Inductive MetricValue :=
| IntVal (n : nat)
| FloatVal (x : f64)
| StrVal (s : string).

(** The Streamlit elements whose content depends on the data; static
    headings, separators and the column count are left out. *)
Inductive Element :=
| warning (body : string)
| metric (label : string) (value : MetricValue)
| scatter_chart (data : DataFrame) (x y color : string)
| bar_chart (data : list (string * float))
| dataframe (data : DataFrame)
| dimensions (rows : nat).

(** The outcome of one run of the script: what was rendered, and whether
    the run was halted by [st.stop()]. *)
Record Run := mkRun {
  elements : list Element;
  stopped : bool
}.

Definition render (df_selection : DataFrame) : Run :=
  if empty df_selection then
    mkRun
      [warning "No data available for the selected filters. Please adjust your selection."]
      true
  else
    let avg_bill_length := np_round (fmean (column bill_length_mm df_selection)) 1 in
    let avg_body_mass := np_round (fmean (column body_mass_g df_selection)) 1 in
    mkRun
      [metric "Total Penguins" (IntVal (List.length df_selection));
       metric "Avg. Bill Length (mm)" (FloatVal avg_bill_length);
       metric "Avg. Body Mass (g)"
              (StrVal (format_2f (f64_div avg_body_mass 1000) ++ " kg"));
       scatter_chart df_selection "bill_length_mm" "bill_depth_mm" "species";
       bar_chart (avg_mass_by_species df_selection);
       dataframe df_selection;
       dimensions (List.length df_selection)]
      false.

(** The script from the filters on, for a loaded frame and a sidebar state. *)
Definition app (df : DataFrame) (sb : Sidebar) : Run :=
  render (df_selection df sb).

(** What a run computed. *)
Definition is_metric (e : Element) : bool :=
  match e with metric _ _ => true | _ => false end.

Definition is_chart (e : Element) : bool :=
  match e with scatter_chart _ _ _ _ | bar_chart _ => true | _ => false end.

Definition is_warning (e : Element) : bool :=
  match e with warning _ => true | _ => false end.

(** The value of the metric with a given label, if it was rendered. *)
Fixpoint metric_value (label : string) (es : list Element) : option MetricValue :=
  match es with
  | [] => None
  | metric l v :: es' => if String.eqb l label then Some v else metric_value label es'
  | _ :: es' => metric_value label es'
  end.

(** The data of the bar chart, if it was rendered. *)
Fixpoint bar_chart_data (es : list Element) : option (list (string * float)) :=
  match es with
  | [] => None
  | bar_chart d :: _ => Some d
  | _ :: es' => bar_chart_data es'
  end.

(** ** The script over an object store

    pandas frames are objects: a variable holds a reference, [copy] and
    boolean indexing build a new object.  The store is the list of the
    objects allocated so far, a reference is a position in it. *)

Module Store.

Definition Ref := nat.
Definition Heap := list DataFrame.

(** Computations that read and extend the store; [None] is a dangling
    reference. *)
Definition Py (A : Type) : Type := Heap -> option (A * Heap).

Definition ret {A : Type} (a : A) : Py A := fun h => Some (a, h).

Definition bind {A B : Type} (m : Py A) (k : A -> Py B) : Py B :=
  fun h => match m h with
           | Some (a, h') => k a h'
           | None => None
           end.

Notation "x <- m ;; k" := (bind m (fun x => k))
  (at level 61, m at next level, right associativity).

Definition deref (r : Ref) : Py DataFrame :=
  fun h => match nth_error h r with
           | Some d => Some (d, h)
           | None => None
           end.

Definition alloc (d : DataFrame) : Py Ref :=
  fun h => Some (List.length h, h ++ [d]).

(** [r.copy()]. *)
Definition copy_ref (r : Ref) : Py Ref :=
  d <- deref r ;; alloc (copy d).

(** [r[mask(r)]]. *)
Definition getitem_ref (r : Ref) (mask : DataFrame -> list bool) : Py Ref :=
  d <- deref r ;; alloc (getitem d (mask d)).

(** Lines 74-90: the variable [df_selection] is rebound at each step. *)
Definition df_selection (df : Ref) (sb : Sidebar) : Py Ref :=
  df_selection <- copy_ref df ;;
  df_selection <-
    (if truthy (sel_species sb)
     then getitem_ref df_selection (fun d => isin (column species d) (sel_species sb))
     else ret df_selection) ;;
  df_selection <-
    (if truthy (sel_island sb)
     then getitem_ref df_selection (fun d => isin (column island d) (sel_island sb))
     else ret df_selection) ;;
  df_selection <-
    (if truthy (sel_sex sb)
     then getitem_ref df_selection (fun d => isin (column sex d) (sel_sex sb))
     else ret df_selection) ;;
  getitem_ref df_selection
    (fun d => mask_and (series_ge (column body_mass_g d) (fst (body_mass_slider sb)))
                       (series_le (column body_mass_g d) (snd (body_mass_slider sb)))).

(** Lines 74-153. *)
Definition app (df : Ref) (sb : Sidebar) : Py Run :=
  df_selection <- df_selection df sb ;;
  d <- deref df_selection ;;
  ret (render d).

End Store.

(** ** Sample data *)

(** The two-row dataset of the reference scenario. *)
Definition adelie_row : Row :=
  mkRow "Adelie" "Torgersen" "male" (391 # 10) (187 # 10) 3750.
Definition gentoo_row : Row :=
  mkRow "Gentoo" "Biscoe" "female" (461 # 10) (132 # 10) 4500.
Definition scenario_df : DataFrame := [adelie_row; gentoo_row].
Definition scenario_sidebar : Sidebar :=
  mkSidebar ["Adelie"%string] [] [] (3000, 5000).

(** A frame with masses of 3750.5 g and 4500.5 g. *)
Definition fractional_df : DataFrame :=
  [mkRow "Adelie" "Torgersen" "male" (391 # 10) (187 # 10) (7501 # 2);
   mkRow "Gentoo" "Biscoe" "female" (461 # 10) (132 # 10) (9001 # 2)].

(** The initial slider value read as "the observed minimum and maximum". *)
Definition default_is_observed_range (df : DataFrame) : Prop :=
  exists lo hi rng,
    series_min (column body_mass_g df) = Some lo /\
    series_max (column body_mass_g df) = Some hi /\
    default_slider df = Some rng /\
    fst rng == lo /\ snd rng == hi.

(** [z] is [q] truncated toward zero. *)
Definition truncation_of (q : Q) (z : Z) : Prop :=
  (0 <= q -> inject_Z z <= q /\ q < inject_Z z + 1) /\
  (q <= 0 -> q <= inject_Z z /\ inject_Z z - 1 < q).

(** The shape of a [.2f] string: an optional minus sign, decimal digits, a
    point and exactly two more digits. *)
Definition is_digit (c : ascii) : bool :=
  ((48 <=? nat_of_ascii c) && (nat_of_ascii c <=? 57))%nat.

Fixpoint all_digits (s : string) : bool :=
  match s with
  | EmptyString => true
  | String c s' => is_digit c && all_digits s'
  end.

Definition two_decimals (s : string) : Prop :=
  exists sign ip d1 d2,
    s = (sign ++ ip ++ "." ++ String d1 (String d2 ""))%string /\
    (sign = ""%string \/ sign = "-"%string) /\
    ip <> ""%string /\ all_digits ip = true /\
    is_digit d1 = true /\ is_digit d2 = true.

(** Twenty rows of 3125 g and one of 3126 g: the mean is 3125 + 1/21. *)
Definition tie_row (mass : Q) : Row :=
  mkRow "Adelie" "Torgersen" "male" (391 # 10) (187 # 10) mass.
Definition tie_df : DataFrame := repeat (tie_row 3125) 20 ++ [tie_row 3126].
Definition tie_sidebar : Sidebar := mkSidebar [] [] [] (3125, 3126).

(** The body-mass metric read as "the mean over 1000, printed with two
    decimals, nothing rounded in between". *)
Definition displays_exact_mean (view : DataFrame) : Prop :=
  metric_value "Avg. Body Mass (g)" (elements (render view))
  = Some (StrVal (format_2f (f64_div (fmean (column body_mass_g view)) 1000) ++ " kg")).

(** Reading a [.2f] string back: the sign and the number of hundredths. *)
Definition digit_value (c : ascii) : Z := Z.of_nat (nat_of_ascii c - 48).

Fixpoint split_at_point (s : string) : option (string * string) :=
  match s with
  | EmptyString => None
  | String c s' =>
      if Ascii.eqb c "."
      then Some (EmptyString, s')
      else match split_at_point s' with
           | Some (ip, fp) => Some (String c ip, fp)
           | None => None
           end
  end.

Definition parse_unsigned_2f (s : string) : option Z :=
  match split_at_point s with
  | Some (ip, String d1 (String d2 EmptyString)) =>
      if is_digit d1 && is_digit d2
      then match NilZero.uint_of_string ip with
           | Some u =>
               Some (Z.of_N (N.of_uint u) * 100
                     + digit_value d1 * 10 + digit_value d2)%Z
           | None => None
           end
      else None
  | _ => None
  end.

Definition parse_2f (s : string) : option (bool * Z) :=
  match s with
  | String "-" s' => option_map (pair true) (parse_unsigned_2f s')
  | _ => option_map (pair false) (parse_unsigned_2f s)
  end.

(** The masses of a view are whole numbers of grams, at most a tonne. *)
Definition whole_grams (view : DataFrame) : Prop :=
  forall r, In r view ->
            exists z, (0 <= z <= 1000000)%Z /\ body_mass_g r == inject_Z z.

(** The scenario dataset with its rows swapped: Gentoo is seen first. *)
Definition swapped_df : DataFrame := [gentoo_row; adelie_row].



(** The rows of one species. *)
Definition rows_of_species (k : string) (view : DataFrame) : DataFrame :=
  filter (fun r => String.eqb (species r) k) view.

(** ** Loading (lines 16-26) *)

(** One line of the CSV as [read_csv] returns it: a cell may be missing.
    [raw_other] holds the cells of the columns the script never reads. *)
Record RawRow := mkRaw {
  raw_species : option string;
  raw_island : option string;
  raw_sex : option string;
  raw_bill_length_mm : option Q;
  raw_bill_depth_mm : option Q;
  raw_body_mass_g : option Q;
  raw_other : list (option string)
}.

Definition isna {A : Type} (c : option A) : bool :=
  match c with None => true | Some _ => false end.

(** A row has a missing value in some column. *)
Definition has_na (r : RawRow) : bool :=
  isna (raw_species r) || isna (raw_island r) || isna (raw_sex r) ||
  isna (raw_bill_length_mm r) || isna (raw_bill_depth_mm r) ||
  isna (raw_body_mass_g r) || existsb isna (raw_other r).

(** [df.dropna()]: the rows without a missing value, index order kept. *)
Definition dropna (raw : list RawRow) : list RawRow :=
  filter (fun r => negb (has_na r)) raw.

(** The columns the script reads, when none of them is missing. *)
Definition row_of (r : RawRow) : option Row :=
  match raw_species r, raw_island r, raw_sex r,
        raw_bill_length_mm r, raw_bill_depth_mm r, raw_body_mass_g r with
  | Some sp, Some isl, Some sx, Some bl, Some bd, Some bm =>
      Some (mkRow sp isl sx bl bd bm)
  | _, _, _, _, _, _ => None
  end.

Fixpoint rows_of (raw : list RawRow) : DataFrame :=
  match raw with
  | [] => []
  | r :: raw' =>
      match row_of r with
      | Some row => row :: rows_of raw'
      | None => rows_of raw'
      end
  end.

(** The body of [load_data], given what [read_csv] returned. *)
Definition load_data (csv : list RawRow) : DataFrame :=
  rows_of (dropna csv).

(** [@st.cache_data] on a function without arguments: one cache slot.  The
    remote file is [None] when [read_csv] raises; an exception stores
    nothing.  The result is the frame bound to [df] (or the failure) and
    the cache after the call. *)
Definition load_data_cached (remote : option (list RawRow))
           (cache : option DataFrame) : option DataFrame * option DataFrame :=
  match cache with
  | Some d => (Some d, cache)
  | None =>
      match remote with
      | Some csv => (Some (load_data csv), Some (load_data csv))
      | None => (None, None)
      end
  end.

(** Successive reruns of the script in one process: the state of the
    remote file at each rerun, and the frame each rerun gets. *)
Fixpoint reruns (remotes : list (option (list RawRow)))
         (cache : option DataFrame) : list (option DataFrame) :=
  match remotes with
  | [] => []
  | remote :: remotes' =>
      let (df, cache') := load_data_cached remote cache in
      df :: reruns remotes' cache'
  end.

(** Sample CSV: a complete Adelie line, a Gentoo line without its sex, and
    a complete Gentoo line. *)
Definition adelie_line : RawRow :=
  mkRaw (Some "Adelie"%string) (Some "Torgersen"%string) (Some "male"%string)
        (Some (391 # 10)) (Some (187 # 10)) (Some 3750)
        [Some "181"%string; Some "2007"%string].
Definition unsexed_line : RawRow :=
  mkRaw (Some "Gentoo"%string) (Some "Biscoe"%string) None
        (Some (445 # 10)) (Some (143 # 10)) (Some 4100)
        [Some "216"%string; Some "2007"%string].
Definition gentoo_line : RawRow :=
  mkRaw (Some "Gentoo"%string) (Some "Biscoe"%string) (Some "female"%string)
        (Some (461 # 10)) (Some (132 # 10)) (Some 4500)
        [Some "211"%string; Some "2007"%string].
Definition sample_csv : list RawRow := [adelie_line; unsexed_line; gentoo_line].

(** * Verification *)

(** ** Facts about the pandas operations *)

Section MaskFacts.

Lemma getitem_map (p : Row -> bool) (d : DataFrame) :
  getitem d (map p d) = filter p d.
Proof.
  induction d as [|r d IH]; simpl; [reflexivity|].
  destruct (p r); rewrite IH; reflexivity.
Qed.

Lemma mask_and_map (p q : Row -> bool) (d : DataFrame) :
  mask_and (map p d) (map q d) = map (fun r => p r && q r) d.
Proof.
  induction d as [|r d IH]; simpl; [reflexivity|].
  rewrite IH; reflexivity.
Qed.

Lemma getitem_isin (col : Row -> string) (sel : list string) (d : DataFrame) :
  getitem d (isin (column col d) sel)
  = filter (fun r => existsb (String.eqb (col r)) sel) d.
Proof.
  unfold isin, column. rewrite map_map. apply getitem_map.
Qed.

Lemma getitem_mass (rng : Q * Q) (d : DataFrame) :
  getitem d (mask_and (series_ge (column body_mass_g d) (fst rng))
                      (series_le (column body_mass_g d) (snd rng)))
  = filter (fun r => mass_test rng (body_mass_g r)) d.
Proof.
  unfold series_ge, series_le, column. rewrite !map_map.
  rewrite (mask_and_map (fun r => Qle_bool (fst rng) (body_mass_g r))
                        (fun r => Qle_bool (body_mass_g r) (snd rng))).
  apply getitem_map.
Qed.

Lemma filter_cat (col : Row -> string) (sel : list string) (d : DataFrame) :
  (if truthy sel
   then getitem d (isin (column col d) sel)
   else d)
  = filter (fun r => cat_test sel (col r)) d.
Proof.
  unfold cat_test. destruct (truthy sel).
  - apply getitem_isin.
  - induction d as [|r d IH]; simpl; [reflexivity|]. rewrite <- IH. reflexivity.
Qed.

Lemma filter_filter (p q : Row -> bool) (d : DataFrame) :
  filter q (filter p d) = filter (fun r => p r && q r) d.
Proof.
  induction d as [|r d IH]; simpl; [reflexivity|].
  destruct (p r); simpl; [destruct (q r)|]; rewrite IH; reflexivity.
Qed.

End MaskFacts.

(** The sequential filters amount to one pass with the conjunction. *)
Lemma df_selection_filter (df : DataFrame) (sb : Sidebar) :
  df_selection df sb = filter (matchesb sb) df.
Proof.
  unfold df_selection, copy.
  rewrite (filter_cat species), (filter_cat island), (filter_cat sex).
  rewrite getitem_mass, !filter_filter.
  apply filter_ext. intros r. unfold matchesb.
  rewrite !andb_assoc. reflexivity.
Qed.

Lemma existsb_eqb_In (v : string) (sel : list string) :
  existsb (String.eqb v) sel = true <-> In v sel.
Proof.
  rewrite existsb_exists. split.
  - intros [w [Hin Heq]]. apply String.eqb_eq in Heq. subst. exact Hin.
  - intros Hin. exists v. split; [exact Hin | apply String.eqb_refl].
Qed.

Lemma cat_test_spec (sel : list string) (v : string) :
  cat_test sel v = true <-> in_selection sel v.
Proof.
  unfold cat_test, in_selection. destruct sel as [|w sel]; simpl truthy; cbv iota.
  - split; [intros _; left; reflexivity | reflexivity].
  - rewrite existsb_eqb_In. split; [intros H; right; exact H|].
    intros [H|H]; [discriminate H | exact H].
Qed.

Lemma mass_test_spec (rng : Q * Q) (m : Q) :
  mass_test rng m = true <-> in_mass_range rng m.
Proof.
  unfold mass_test, in_mass_range.
  rewrite andb_true_iff, !Qle_bool_iff. reflexivity.
Qed.

Lemma matchesb_spec (sb : Sidebar) (r : Row) :
  matchesb sb r = true <-> matches sb r.
Proof.
  unfold matchesb, matches.
  rewrite !andb_true_iff, !cat_test_spec, mass_test_spec. tauto.
Qed.

Lemma filter_Subseq {A : Type} (p : A -> bool) (l : list A) :
  Subseq (filter p l) l.
Proof.
  induction l as [|x l IH]; simpl; [constructor|].
  destruct (p x); constructor; exact IH.
Qed.

(** C1: the filtered view is an order-preserving sub-sequence of the
    dataset, every row of it satisfies the four filter predicates at once,
    and it holds every row of the dataset that does. *)
Theorem filtered_view_sound (df : DataFrame) (sb : Sidebar) :
  Subseq (df_selection df sb) df /\
  Forall (matches sb) (df_selection df sb) /\
  (forall r, In r (df_selection df sb) <-> In r df /\ matches sb r).
Proof.
  rewrite df_selection_filter. split; [apply filter_Subseq|]. split.
  - apply Forall_forall. intros r Hr. apply filter_In in Hr.
    apply matchesb_spec, Hr.
  - intros r. rewrite filter_In, matchesb_spec. reflexivity.
Qed.

(** The reference scenario: two rows, species Adelie chosen, slider at
    (3000, 5000). *)
Example scenario_run :
  app scenario_df scenario_sidebar =
  mkRun [metric "Total Penguins" (IntVal 1);
         metric "Avg. Bill Length (mm)" (FloatVal (nearest (391 # 10)));
         metric "Avg. Body Mass (g)" (StrVal "3.75 kg");
         scatter_chart [adelie_row] "bill_length_mm" "bill_depth_mm" "species";
         bar_chart [("Adelie"%string, Some 3750)];
         dataframe [adelie_row];
         dimensions 1] false.
Proof. vm_compute. reflexivity. Qed.

(** ** Empty selections *)

Lemma empty_nil (d : DataFrame) : empty d = true <-> d = [].
Proof. destruct d; simpl; split; intros H; congruence. Qed.

Lemma render_nonempty (r : Row) (d : DataFrame) :
  render (r :: d) =
  mkRun
    [metric "Total Penguins" (IntVal (List.length (r :: d)));
     metric "Avg. Bill Length (mm)"
            (FloatVal (np_round (fmean (column bill_length_mm (r :: d))) 1));
     metric "Avg. Body Mass (g)"
            (StrVal (format_2f
                       (f64_div (np_round (fmean (column body_mass_g (r :: d))) 1) 1000)
                     ++ " kg"));
     scatter_chart (r :: d) "bill_length_mm" "bill_depth_mm" "species";
     bar_chart (avg_mass_by_species (r :: d));
     dataframe (r :: d);
     dimensions (List.length (r :: d))]
    false.
Proof. reflexivity. Qed.

(** C2: an empty filtered view makes the run show the warning and stop,
    with no metric, no aggregate and no chart; the metrics, the aggregate
    by species and the charts are produced exactly when the view has a row. *)
Theorem empty_selection_stops (df : DataFrame) (sb : Sidebar) :
  (df_selection df sb = [] <->
   app df sb =
   mkRun [warning "No data available for the selected filters. Please adjust your selection."]
         true) /\
  (df_selection df sb = [] <-> stopped (app df sb) = true) /\
  (df_selection df sb <> [] <-> existsb is_metric (elements (app df sb)) = true) /\
  (df_selection df sb <> [] <->
   bar_chart_data (elements (app df sb))
   = Some (avg_mass_by_species (df_selection df sb))) /\
  (df_selection df sb <> [] <-> existsb is_chart (elements (app df sb)) = true) /\
  (df_selection df sb <> [] <->
   metric_value "Total Penguins" (elements (app df sb))
   = Some (IntVal (List.length (df_selection df sb)))).
Proof.
  unfold app. destruct (df_selection df sb) as [|r d].
  - simpl. repeat split; intros H; try reflexivity; try congruence; discriminate H.
  - rewrite render_nonempty. cbn [elements stopped].
    repeat split; intros H; try reflexivity; try discriminate H; discriminate.
Qed.

(** ** Minimum and maximum of a Series *)

Section Extremes.

Lemma fold_min_bound (s : list Q) (a : Q) :
  fold_left fmin s a <= a /\ forall w, In w s -> fold_left fmin s a <= w.
Proof.
  revert a. induction s as [|v s IH]; intros a; simpl.
  - split; [apply Qle_refl | intros w []].
  - destruct (IH (fmin a v)) as [Ha Hs].
    assert (Hav : fmin a v <= a /\ fmin a v <= v).
    { unfold fmin. destruct (Qle_bool a v) eqn:E.
      - apply Qle_bool_iff in E. split; [apply Qle_refl | exact E].
      - split; [|apply Qle_refl].
        destruct (Qlt_le_dec v a) as [Hlt|Hle]; [apply Qlt_le_weak, Hlt|].
        apply Qle_bool_iff in Hle. congruence. }
    destruct Hav as [H1 H2]. split.
    + eapply Qle_trans; eassumption.
    + intros w [<-|Hw]; [eapply Qle_trans; eassumption | apply Hs, Hw].
Qed.

Lemma fold_max_bound (s : list Q) (a : Q) :
  a <= fold_left fmax s a /\ forall w, In w s -> w <= fold_left fmax s a.
Proof.
  revert a. induction s as [|v s IH]; intros a; simpl.
  - split; [apply Qle_refl | intros w []].
  - destruct (IH (fmax a v)) as [Ha Hs].
    assert (Hav : a <= fmax a v /\ v <= fmax a v).
    { unfold fmax. destruct (Qle_bool v a) eqn:E.
      - apply Qle_bool_iff in E. split; [apply Qle_refl | exact E].
      - split; [|apply Qle_refl].
        destruct (Qlt_le_dec a v) as [Hlt|Hle]; [apply Qlt_le_weak, Hlt|].
        apply Qle_bool_iff in Hle. congruence. }
    destruct Hav as [H1 H2]. split.
    + eapply Qle_trans; eassumption.
    + intros w [<-|Hw]; [eapply Qle_trans; eassumption | apply Hs, Hw].
Qed.

Lemma fold_min_In (s : list Q) (a : Q) : In (fold_left fmin s a) (a :: s).
Proof.
  revert a. induction s as [|v s IH]; intros a; simpl; [left; reflexivity|].
  destruct (IH (fmin a v)) as [H|H].
  - unfold fmin in H at 1. destruct (Qle_bool a v); [left | right; left]; exact H.
  - right; right; exact H.
Qed.

Lemma fold_max_In (s : list Q) (a : Q) : In (fold_left fmax s a) (a :: s).
Proof.
  revert a. induction s as [|v s IH]; intros a; simpl; [left; reflexivity|].
  destruct (IH (fmax a v)) as [H|H].
  - unfold fmax in H at 1. destruct (Qle_bool v a); [left | right; left]; exact H.
  - right; right; exact H.
Qed.

Lemma series_min_le (s : list Q) (lo : Q) :
  series_min s = Some lo -> forall v, In v s -> lo <= v.
Proof.
  destruct s as [|a s]; simpl; [discriminate|].
  intros [= <-] v Hv. destruct (fold_min_bound s a) as [Ha Hs].
  destruct Hv as [<-|Hv]; [exact Ha | exact (Hs v Hv)].
Qed.

Lemma series_max_ge (s : list Q) (hi : Q) :
  series_max s = Some hi -> forall v, In v s -> v <= hi.
Proof.
  destruct s as [|a s]; simpl; [discriminate|].
  intros [= <-] v Hv. destruct (fold_max_bound s a) as [Ha Hs].
  destruct Hv as [<-|Hv]; [exact Ha | exact (Hs v Hv)].
Qed.

Lemma series_min_In (s : list Q) (lo : Q) : series_min s = Some lo -> In lo s.
Proof.
  destruct s as [|a s]; simpl; [discriminate|].
  intros [= <-]. apply (fold_min_In s a).
Qed.

Lemma series_max_In (s : list Q) (hi : Q) : series_max s = Some hi -> In hi s.
Proof.
  destruct s as [|a s]; simpl; [discriminate|].
  intros [= <-]. apply (fold_max_In s a).
Qed.

End Extremes.

Lemma filter_all {A : Type} (p : A -> bool) (l : list A) :
  (forall x, In x l -> p x = true) -> filter p l = l.
Proof.
  induction l as [|x l IH]; simpl; intros H; [reflexivity|].
  rewrite (H x (or_introl eq_refl)), IH; [reflexivity|].
  intros y Hy. apply H. right. exact Hy.
Qed.

(** With nothing chosen in the multiselects only the mass test is left. *)
Lemma df_selection_mass_only (df : DataFrame) (rng : Q * Q) :
  df_selection df (mkSidebar [] [] [] rng)
  = filter (fun r => mass_test rng (body_mass_g r)) df.
Proof. rewrite df_selection_filter. apply filter_ext. intros r. reflexivity. Qed.

(** A range that covers every mass of the frame keeps every row. *)
Lemma covering_range_keeps_all (df : DataFrame) (rng : Q * Q) :
  (forall m, In m (column body_mass_g df) -> in_mass_range rng m) ->
  df_selection df (mkSidebar [] [] [] rng) = df.
Proof.
  intros H. rewrite df_selection_mass_only. apply filter_all.
  intros r Hr. apply mass_test_spec, H. unfold column. apply in_map, Hr.
Qed.

(** C6: with no categorical choice and the slider at the true minimum and
    maximum of [body_mass_g], the view is the whole dataset and the
    "Total Penguins" metric is its size. *)
Theorem full_range_returns_all (df : DataFrame) (lo hi : Q) :
  series_min (column body_mass_g df) = Some lo ->
  series_max (column body_mass_g df) = Some hi ->
  df_selection df (mkSidebar [] [] [] (lo, hi)) = df /\
  metric_value "Total Penguins" (elements (app df (mkSidebar [] [] [] (lo, hi))))
  = Some (IntVal (List.length df)).
Proof.
  intros Hlo Hhi.
  assert (Hall : df_selection df (mkSidebar [] [] [] (lo, hi)) = df).
  { apply covering_range_keeps_all. intros m Hm. split; simpl.
    - eapply series_min_le; eassumption.
    - eapply series_max_ge; eassumption. }
  split; [exact Hall|].
  unfold app. rewrite Hall. destruct df as [|r d]; [discriminate Hlo|].
  rewrite render_nonempty. reflexivity.
Qed.

Lemma full_range_returns_all_witness :
  series_min (column body_mass_g scenario_df) = Some 3750 /\
  series_max (column body_mass_g scenario_df) = Some 4500 /\
  df_selection scenario_df (mkSidebar [] [] [] (3750, 4500)) = scenario_df /\
  metric_value "Total Penguins"
    (elements (app scenario_df (mkSidebar [] [] [] (3750, 4500))))
  = Some (IntVal 2).
Proof.
  split; [reflexivity|]. split; [reflexivity|].
  apply (full_range_returns_all scenario_df 3750 4500); reflexivity.
Defined.

(** ** Choosing every option *)

Lemma unique_In (s : list string) (v : string) : In v (unique s) <-> In v s.
Proof.
  induction s as [|w s IH]; simpl; [reflexivity|].
  rewrite filter_In, IH, negb_true_iff, String.eqb_neq.
  destruct (String.eqb_spec w v) as [->|Hne].
  - split; intros _; left; reflexivity.
  - split; (intros [H|H]; [contradiction|right]); [apply H|].
    split; [exact H | congruence].
Qed.

Lemma unique_NoDup (s : list string) : NoDup (unique s).
Proof.
  induction s as [|w s IH]; simpl; constructor.
  - rewrite filter_In, negb_true_iff, String.eqb_neq. intros [_ H]. congruence.
  - apply NoDup_filter, IH.
Qed.

(** A selection that holds every value of a column accepts every row. *)
Lemma cat_test_covering (col : Row -> string) (sel : list string)
      (df : DataFrame) (r : Row) :
  (forall v, In v (column col df) -> In v sel) ->
  In r df -> cat_test sel (col r) = true.
Proof.
  intros Hall Hr. apply cat_test_spec. right.
  apply Hall. unfold column. apply in_map, Hr.
Qed.

Lemma cat_test_unique (col : Row -> string) (df : DataFrame) (r : Row) :
  In r df -> cat_test (unique (column col df)) (col r) = true.
Proof.
  apply cat_test_covering. intros v Hv. apply unique_In, Hv.
Qed.

Lemma filter_ext_in_rows (p q : Row -> bool) (d : DataFrame) :
  (forall r, In r d -> p r = q r) -> filter p d = filter q d.
Proof.
  induction d as [|r d IH]; simpl; intros H; [reflexivity|].
  rewrite (H r (or_introl eq_refl)), IH; [reflexivity|].
  intros x Hx. apply H. right. exact Hx.
Qed.

(** In whatever order the options are chosen, a species selection that
    holds every species of the dataset filters nothing out. *)
Lemma covering_species_is_noop (df : DataFrame) (sp isl sx : list string)
      (rng : Q * Q) :
  (forall v, In v (column species df) -> In v sp) ->
  df_selection df (mkSidebar sp isl sx rng)
  = df_selection df (mkSidebar [] isl sx rng).
Proof.
  intros Hall. rewrite !df_selection_filter.
  apply filter_ext_in_rows. intros r Hr. unfold matchesb.
  cbn [sel_species sel_island sel_sex body_mass_slider].
  rewrite (cat_test_covering species sp df r Hall Hr). reflexivity.
Qed.

(** C7: choosing every distinct value of a categorical column gives the
    same view as choosing none, for each of the three multiselects and
    whatever the other filters are. *)
Theorem full_selection_is_noop (df : DataFrame) :
  (forall isl sx rng,
      df_selection df (mkSidebar (unique (column species df)) isl sx rng)
      = df_selection df (mkSidebar [] isl sx rng)) /\
  (forall sp sx rng,
      df_selection df (mkSidebar sp (unique (column island df)) sx rng)
      = df_selection df (mkSidebar sp [] sx rng)) /\
  (forall sp isl rng,
      df_selection df (mkSidebar sp isl (unique (column sex df)) rng)
      = df_selection df (mkSidebar sp isl [] rng)).
Proof.
  repeat split; intros; rewrite !df_selection_filter;
    apply filter_ext_in_rows; intros r Hr; unfold matchesb; cbn [sel_species sel_island sel_sex body_mass_slider];
    rewrite (cat_test_unique _ df r Hr); reflexivity.
Qed.

(** ** A one-point range *)

Lemma mass_test_point (x m : Q) : mass_test (x, x) m = Qeq_bool m x.
Proof.
  unfold mass_test; simpl.
  destruct (Qeq_bool m x) eqn:E.
  - apply Qeq_bool_iff in E. apply andb_true_iff.
    split; apply Qle_bool_iff; rewrite E; apply Qle_refl.
  - apply andb_false_iff.
    destruct (Qle_bool x m) eqn:E1; [right | left; reflexivity].
    destruct (Qle_bool m x) eqn:E2; [|reflexivity].
    apply Qle_bool_iff in E1, E2.
    assert (H : m == x) by (apply Qle_antisym; assumption).
    apply Qeq_bool_iff in H. congruence.
Qed.

(** C8: for an observed mass [x], the slider at [(x, x)] and no
    categorical choice select exactly the rows whose mass equals [x]; there
    is at least one. *)
Theorem point_range_selects_equal_mass (df : DataFrame) (x : Q) :
  In x (column body_mass_g df) ->
  df_selection df (mkSidebar [] [] [] (x, x))
  = filter (fun r => Qeq_bool (body_mass_g r) x) df /\
  (forall r, In r (df_selection df (mkSidebar [] [] [] (x, x)))
             <-> In r df /\ body_mass_g r == x) /\
  df_selection df (mkSidebar [] [] [] (x, x)) <> [].
Proof.
  intros Hx.
  assert (Heq : df_selection df (mkSidebar [] [] [] (x, x))
                = filter (fun r => Qeq_bool (body_mass_g r) x) df).
  { rewrite df_selection_mass_only. apply filter_ext.
    intros r. apply mass_test_point. }
  rewrite Heq. split; [reflexivity|]. split.
  - intros r. rewrite filter_In, Qeq_bool_iff. reflexivity.
  - unfold column in Hx. apply in_map_iff in Hx. destruct Hx as [r [Hm Hr]].
    intros Hnil.
    assert (Hin : In r (filter (fun r => Qeq_bool (body_mass_g r) x) df)).
    { apply filter_In. split; [exact Hr|]. apply Qeq_bool_iff. rewrite Hm. reflexivity. }
    rewrite Hnil in Hin. exact Hin.
Qed.

Lemma point_range_selects_equal_mass_witness :
  In 3750 (column body_mass_g scenario_df) /\
  df_selection scenario_df (mkSidebar [] [] [] (3750, 3750)) = [adelie_row].
Proof.
  split; [left; reflexivity|].
  destruct (point_range_selects_equal_mass scenario_df 3750) as [H _];
    [left; reflexivity|].
  rewrite H. reflexivity.
Defined.

(** ** The initial value of the slider *)

Lemma int_of_integer (q : Q) (z : Z) : q == inject_Z z -> int (Some q) = Some z.
Proof.
  unfold Qeq, int; simpl. intros H. f_equal.
  rewrite Z.mul_1_r in H. rewrite H. apply Z.quot_mul. discriminate.
Qed.

Lemma int_nonneg (q : Q) : 0 <= q -> int (Some q) = Some (Qfloor q).
Proof.
  destruct q as [n d]. unfold Qle, int, Qfloor; simpl. intros H. f_equal.
  apply Z.quot_div_nonneg; lia.
Qed.

Lemma int_nonpos (q : Q) : q <= 0 -> int (Some q) = Some (Qceiling q).
Proof.
  destruct q as [n d]. unfold Qle, int, Qceiling, Qfloor; simpl. intros H. f_equal.
  rewrite <- (Z.opp_involutive n) at 1. rewrite Z.quot_opp_l by discriminate.
  f_equal. apply Z.quot_div_nonneg; lia.
Qed.

(** [int] moves its argument toward zero by less than one. *)
Lemma int_truncates (q : Q) (z : Z) :
  int (Some q) = Some z -> truncation_of q z.
Proof.
  intros H. split; intros Hq.
  - rewrite (int_nonneg q Hq) in H. injection H as <-. split.
    + apply Qfloor_le.
    + pose proof (Qlt_floor q) as Hlt. rewrite inject_Z_plus in Hlt. exact Hlt.
  - rewrite (int_nonpos q Hq) in H. injection H as <-. split.
    + apply Qle_ceiling.
    + pose proof (Qceiling_lt q) as Hlt.
      unfold Zminus in Hlt. rewrite inject_Z_plus in Hlt. exact Hlt.
Qed.

(** On a frame without rows line 63 raises: there is no slider. *)
Lemma default_slider_empty : default_slider [] = None.
Proof. reflexivity. Qed.

Lemma min_max_mass_value (df : DataFrame) (lo hi : Q) (a b : Z) :
  series_min (column body_mass_g df) = Some lo ->
  series_max (column body_mass_g df) = Some hi ->
  int (Some lo) = Some a -> int (Some hi) = Some b ->
  min_max_mass df = Some (a, b).
Proof.
  intros Hlo Hhi Ha Hb. unfold min_max_mass.
  rewrite Hlo, Hhi, Ha, Hb. reflexivity.
Qed.

Lemma default_slider_value (df : DataFrame) (lo hi : Q) (a b : Z) :
  series_min (column body_mass_g df) = Some lo ->
  series_max (column body_mass_g df) = Some hi ->
  int (Some lo) = Some a -> int (Some hi) = Some b ->
  default_slider df
  = if (a <? b)%Z then Some (inject_Z a, inject_Z b) else None.
Proof.
  intros Hlo Hhi Ha Hb. unfold default_slider.
  rewrite (min_max_mass_value df lo hi a b Hlo Hhi Ha Hb). reflexivity.
Qed.

Lemma int_total (q : Q) : exists z, int (Some q) = Some z.
Proof. eexists. reflexivity. Qed.

Lemma int_exact (q : Q) (a : Z) :
  int (Some q) = Some a -> (exists z, q == inject_Z z) -> inject_Z a == q.
Proof.
  intros Ha [z Hz]. rewrite (int_of_integer q z Hz) in Ha.
  injection Ha as <-. symmetry. exact Hz.
Qed.

(** C4, as the code has it: when line 63 gives two different integers the
    initial slider value is the observed minimum and maximum of
    [body_mass_g], each truncated toward zero to an integer by [int]; it
    is the observed minimum and maximum themselves when these are whole
    numbers.  When the two integers are equal no slider is built. *)
Theorem default_slider_truncates (df : DataFrame) (lo hi : Q) :
  series_min (column body_mass_g df) = Some lo ->
  series_max (column body_mass_g df) = Some hi ->
  exists a b : Z,
    truncation_of lo a /\ truncation_of hi b /\
    ((a < b)%Z -> default_slider df = Some (inject_Z a, inject_Z b)) /\
    ((b <= a)%Z -> default_slider df = None) /\
    ((exists z, lo == inject_Z z) -> inject_Z a == lo) /\
    ((exists z, hi == inject_Z z) -> inject_Z b == hi).
Proof.
  intros Hlo Hhi.
  destruct (int_total lo) as [a Ha]. destruct (int_total hi) as [b Hb].
  exists a, b.
  split; [apply int_truncates, Ha|]. split; [apply int_truncates, Hb|].
  pose proof (default_slider_value df lo hi a b Hlo Hhi Ha Hb) as Hd.
  split; [|split].
  - intros Hab. apply Z.ltb_lt in Hab. rewrite Hab in Hd. exact Hd.
  - intros Hab. apply Z.ltb_ge in Hab. rewrite Hab in Hd. exact Hd.
  - split; apply int_exact; assumption.
Qed.

Lemma default_slider_truncates_witness :
  series_min (column body_mass_g fractional_df) = Some (7501 # 2) /\
  series_max (column body_mass_g fractional_df) = Some (9001 # 2) /\
  exists a b : Z,
    truncation_of (7501 # 2) a /\ truncation_of (9001 # 2) b /\
    ((a < b)%Z -> default_slider fractional_df = Some (inject_Z a, inject_Z b)) /\
    ((b <= a)%Z -> default_slider fractional_df = None) /\
    ((exists z, 7501 # 2 == inject_Z z) -> inject_Z a == 7501 # 2) /\
    ((exists z, 9001 # 2 == inject_Z z) -> inject_Z b == 9001 # 2).
Proof.
  split; [reflexivity|]. split; [reflexivity|].
  apply (default_slider_truncates fractional_df (7501 # 2) (9001 # 2));
    reflexivity.
Defined.

(** C4 as stated fails: rows of 3750.5 g and 4500.5 g give the initial
    range (3750, 4500), not (3750.5, 4500.5). *)
Lemma default_slider_counterexample :
  default_slider fractional_df = Some (3750, 4500) /\
  series_min (column body_mass_g fractional_df) = Some (7501 # 2) /\
  series_max (column body_mass_g fractional_df) = Some (9001 # 2) /\
  ~ default_is_observed_range fractional_df.
Proof.
  split; [reflexivity|]. split; [reflexivity|]. split; [reflexivity|].
  intros [lo [hi [rng [Hlo [_ [Hd [H1 _]]]]]]].
  injection Hlo as <-. injection Hd as <-. simpl in H1. discriminate H1.
Qed.

(** With that initial range the heavier row is filtered out. *)
Lemma fractional_default_view :
  default_sidebar fractional_df = Some (mkSidebar [] [] [] (3750, 4500)) /\
  df_selection fractional_df (mkSidebar [] [] [] (3750, 4500))
  = [mkRow "Adelie" "Torgersen" "male" (391 # 10) (187 # 10) (7501 # 2)].
Proof. split; reflexivity. Qed.

(** A single row, or rows whose masses have the same integer part, give
    equal bounds: the slider call raises. *)
Lemma equal_bounds_no_slider :
  default_slider [mkRow "Adelie" "Torgersen" "male" (391 # 10) (187 # 10) 3750]
  = None.
Proof. reflexivity. Qed.

(** When every mass is a whole number the initial range keeps every row. *)
Lemma default_view_of_whole_masses (df : DataFrame) (sb : Sidebar) :
  (forall m, In m (column body_mass_g df) -> exists z, m == inject_Z z) ->
  default_sidebar df = Some sb ->
  df_selection df sb = df.
Proof.
  intros Hint Hsb. unfold default_sidebar in Hsb.
  destruct (series_min (column body_mass_g df)) as [lo|] eqn:Hlo.
  2:{ unfold default_slider, min_max_mass in Hsb. rewrite Hlo in Hsb. discriminate Hsb. }
  destruct (series_max (column body_mass_g df)) as [hi|] eqn:Hhi.
  2:{ unfold default_slider, min_max_mass in Hsb. rewrite Hlo, Hhi in Hsb.
      simpl in Hsb. discriminate Hsb. }
  destruct (int_total lo) as [a Ha]. destruct (int_total hi) as [b Hb].
  rewrite (default_slider_value df lo hi a b Hlo Hhi Ha Hb) in Hsb.
  destruct (a <? b)%Z; [|discriminate Hsb].
  injection Hsb as <-.
  apply covering_range_keeps_all. intros m Hm. split; simpl.
  - rewrite (int_exact lo a Ha); [eapply series_min_le; eassumption|].
    apply Hint. eapply series_min_In; eassumption.
  - rewrite (int_exact hi b Hb); [eapply series_max_ge; eassumption|].
    apply Hint. eapply series_max_In; eassumption.
Qed.

(** ** Rounding and formatting *)

Lemma rint_nearest (x : Q) : Qabs (inject_Z (rint x) - x) <= 1 # 2.
Proof.
  pose proof (Qfloor_le x) as Hlo. pose proof (Qlt_floor x) as Hhi.
  rewrite inject_Z_plus in Hhi. change (inject_Z 1) with 1 in Hhi.
  apply Qabs_Qle_condition. unfold rint.
  destruct (Qcompare (x - inject_Z (Qfloor x)) (1 # 2)) eqn:E.
  - apply Qeq_alt in E. destruct (Z.even (Qfloor x));
      rewrite ?inject_Z_plus; change (inject_Z 1) with 1; split; lra.
  - apply Qlt_alt in E. split; lra.
  - apply Qgt_alt in E. rewrite inject_Z_plus. change (inject_Z 1) with 1.
    split; lra.
Qed.

Lemma rint_comp (x y : Q) : x == y -> rint x = rint y.
Proof.
  intros H. unfold rint.
  assert (Hf : Qfloor x = Qfloor y) by (apply Qfloor_comp, H).
  rewrite Hf.
  assert (Hc : Qcompare (x - inject_Z (Qfloor y)) (1 # 2)
               = Qcompare (y - inject_Z (Qfloor y)) (1 # 2))
    by (rewrite H; reflexivity).
  rewrite Hc. reflexivity.
Qed.

Lemma rint_Z (z : Z) : rint (inject_Z z) = z.
Proof.
  unfold rint. rewrite Qfloor_Z.
  assert (H : Qcompare (inject_Z z - inject_Z z) (1 # 2) = Lt).
  { apply (proj1 (Qlt_alt _ _)). lra. }
  rewrite H. reflexivity.
Qed.

Lemma rint_monotone (x y : Q) : x <= y -> (rint x <= rint y)%Z.
Proof.
  intros Hxy. destruct (Z_le_gt_dec (rint x) (rint y)) as [H|H]; [exact H|].
  exfalso.
  assert (Hz : (rint y + 1 <= rint x)%Z) by lia.
  rewrite Zle_Qle, inject_Z_plus in Hz. change (inject_Z 1) with 1 in Hz.
  pose proof (rint_nearest x) as Hx. pose proof (rint_nearest y) as Hy.
  apply Qabs_Qle_condition in Hx, Hy. destruct Hx as [Hx1 Hx2], Hy as [Hy1 Hy2].
  assert (Heq : x == y) by (apply Qle_antisym; lra).
  apply rint_comp in Heq. lia.
Qed.

Lemma round_ndigits_1 (q : Q) :
  round_ndigits q 1 == inject_Z (rint (q * 10)) / 10.
Proof.
  unfold round_ndigits. rewrite Qred_correct.
  change (10 ^ Z.of_nat 1)%Z with 10%Z. change (Z.to_pos 10) with 10%positive.
  change (inject_Z 10) with 10. apply Qmake_Qdiv.
Qed.


(** The printed hundredths are at most half a hundredth away. *)
Lemma hundredths_near (q : Q) : Qabs (inject_Z (hundredths q) / 100 - q) <= 1 # 200.
Proof.
  unfold hundredths.
  pose proof (rint_nearest (q * 100)) as H.
  apply Qabs_Qle_condition in H. apply Qabs_Qle_condition.
  unfold Qdiv. change (/ 100) with (1 # 100).
  destruct H as [H1 H2]. split; lra.
Qed.

Lemma digit_is_digit (d : Z) : (0 <= d < 10)%Z -> is_digit (digit d) = true.
Proof.
  intros H.
  assert (Hd : In d [0; 1; 2; 3; 4; 5; 6; 7; 8; 9]%Z) by (simpl; lia).
  simpl in Hd.
  repeat (destruct Hd as [<-|Hd]; [reflexivity|]). contradiction.
Qed.

Lemma numeral_digits (n : Z) : all_digits (numeral n) = true /\ numeral n <> ""%string.
Proof.
  unfold numeral. generalize (N.to_uint (Z.to_N n)). intros u.
  assert (H : forall v, all_digits (NilEmpty.string_of_uint v) = true).
  { induction v; simpl; try rewrite IHv; reflexivity. }
  destruct u; simpl; (split; [try apply H; try reflexivity | discriminate]).
Qed.

Lemma format_2f_two_decimals (neg : bool) (mag : Q) :
  two_decimals (format_2f (f64_fin neg mag)).
Proof.
  unfold format_2f.
  set (n := hundredths mag).
  exists (if neg then "-" else "")%string, (numeral (n / 100)%Z),
         (digit ((n / 10) mod 10)%Z), (digit (n mod 10)%Z).
  split; [reflexivity|].
  split; [destruct neg; [right | left]; reflexivity|].
  destruct (numeral_digits (n / 100)%Z) as [Hd Hne].
  split; [exact Hne|]. split; [exact Hd|].
  split; apply digit_is_digit; apply Z.mod_pos_bound; lia.
Qed.

(** *** Reading the printed string back *)

Lemma digit_value_digit (d : Z) : (0 <= d < 10)%Z -> digit_value (digit d) = d.
Proof.
  intros H.
  assert (Hd : In d [0; 1; 2; 3; 4; 5; 6; 7; 8; 9]%Z) by (simpl; lia).
  simpl in Hd.
  repeat (destruct Hd as [<-|Hd]; [reflexivity|]). contradiction.
Qed.

Lemma is_digit_not_point (c : ascii) : is_digit c = true -> Ascii.eqb c "." = false.
Proof.
  intros H. destruct (Ascii.eqb_spec c "."%char) as [->|_]; [discriminate H | reflexivity].
Qed.

Lemma is_digit_not_minus (c : ascii) : is_digit c = true -> c <> "-"%char.
Proof. intros H ->. discriminate H. Qed.

Lemma split_at_point_digits (ip fp : string) :
  all_digits ip = true -> split_at_point (ip ++ String "." fp) = Some (ip, fp).
Proof.
  induction ip as [|c ip IH]; simpl; intros H; [reflexivity|].
  apply andb_true_iff in H. destruct H as [Hc Hip].
  rewrite (is_digit_not_point c Hc), (IH Hip). reflexivity.
Qed.

Lemma numeral_read (n : Z) :
  (0 <= n)%Z ->
  NilZero.uint_of_string (numeral n) = Some (N.to_uint (Z.to_N n)) /\
  Z.of_N (N.of_uint (N.to_uint (Z.to_N n))) = n.
Proof.
  intros Hn. split.
  - unfold numeral. apply NilZero.usu.
    destruct (Z.to_N n); simpl; [discriminate|].
    apply DecimalPos.Unsigned.to_uint_nonnil.
  - rewrite DecimalN.Unsigned.of_to. apply Z2N.id, Hn.
Qed.

Lemma parse_unsigned_format (n : Z) :
  (0 <= n)%Z ->
  parse_unsigned_2f
    (numeral (n / 100) ++ "."
     ++ String (digit ((n / 10) mod 10)) (String (digit (n mod 10)) ""))
  = Some n.
Proof.
  intros Hn. unfold parse_unsigned_2f.
  destruct (numeral_digits (n / 100)) as [Hd _].
  change ("." ++ ?s)%string with (String "." s).
  rewrite (split_at_point_digits _ _ Hd).
  rewrite !digit_is_digit by (apply Z.mod_pos_bound; lia).
  cbn [andb].
  assert (H100 : (0 <= n / 100)%Z) by (apply Z.div_pos; lia).
  destruct (numeral_read (n / 100) H100) as [Hu Hv].
  rewrite Hu, Hv.
  rewrite !digit_value_digit by (apply Z.mod_pos_bound; lia).
  f_equal.
  pose proof (Z.div_mod n 10 ltac:(lia)) as H1.
  pose proof (Z.div_mod (n / 10) 10 ltac:(lia)) as H2.
  rewrite Z.div_div in H2 by lia. change (10 * 10)%Z with 100%Z in H2.
  lia.
Qed.

Lemma numeral_head (n : Z) :
  exists c s, numeral n = String c s /\ is_digit c = true.
Proof.
  destruct (numeral_digits n) as [Hd Hne].
  destruct (numeral n) as [|c s]; [congruence|].
  simpl in Hd. apply andb_true_iff in Hd. exists c, s. split; [reflexivity | apply Hd].
Qed.

(** The printed string reads back as the sign bit and the hundredths of the
    magnitude. *)
Lemma parse_format_2f (neg : bool) (mag : Q) :
  (0 <= hundredths mag)%Z ->
  parse_2f (format_2f (f64_fin neg mag)) = Some (neg, hundredths mag).
Proof.
  intros Hn. unfold format_2f.
  pose proof (parse_unsigned_format (hundredths mag) Hn) as Hp.
  destruct neg.
  - change ("-" ++ ?s)%string with (String "-" s).
    unfold parse_2f. rewrite Hp. reflexivity.
  - change ("" ++ ?s)%string with s.
    destruct (numeral_head (hundredths mag / 100)) as [c [s [Hc Hd]]].
    rewrite Hc in *. cbn [append] in *.
    unfold parse_2f.
    destruct (Ascii.eqb_spec c "-"%char) as [->|Hne]; [discriminate Hd|].
    destruct c as [[] [] [] [] [] [] [] []]; try (rewrite Hp; reflexivity).
    congruence.
Qed.

Lemma mean_nonempty (s : list Q) :
  s <> [] ->
  exists m, mean s = Some m /\
            m * inject_Z (Z.of_nat (List.length s)) == series_sum s.
Proof.
  destruct s as [|v s]; [congruence|]. intros _.
  eexists. split; [reflexivity|].
  unfold Qdiv. rewrite <- Qmult_assoc, (Qmult_comm (/ _)), Qmult_inv_r.
  - apply Qmult_1_r.
  - change 0 with (inject_Z 0). rewrite inject_Z_injective.
    simpl List.length. lia.
Qed.

Lemma series_sum_bounds (s : list Q) (lo hi : Q) :
  (forall v, In v s -> lo <= v /\ v <= hi) ->
  lo * inject_Z (Z.of_nat (List.length s)) <= series_sum s /\
  series_sum s <= hi * inject_Z (Z.of_nat (List.length s)).
Proof.
  induction s as [|v s IH]; intros H.
  - cbn [List.length series_sum Z.of_nat]. change (inject_Z 0) with 0.
    split; lra.
  - destruct (H v (or_introl eq_refl)) as [H1 H2].
    destruct IH as [IH1 IH2]; [intros w Hw; apply H; right; exact Hw|].
    cbn [List.length series_sum]. rewrite Nat2Z.inj_succ. unfold Z.succ.
    rewrite inject_Z_plus. change (inject_Z 1) with 1.
    split; lra.
Qed.

Lemma mean_bounds (s : list Q) (lo hi m : Q) :
  (forall v, In v s -> lo <= v /\ v <= hi) ->
  mean s = Some m -> lo <= m /\ m <= hi.
Proof.
  intros Hall Hm.
  destruct (mean_nonempty s) as [m' [Hm' Hsum]].
  { intros ->. discriminate Hm. }
  rewrite Hm in Hm'. injection Hm' as <-.
  destruct (series_sum_bounds s lo hi Hall) as [H1 H2].
  assert (Hn : 0 < inject_Z (Z.of_nat (List.length s))).
  { change 0 with (inject_Z 0). rewrite <- Zlt_Qlt.
    destruct s; [discriminate Hm | simpl; lia]. }
  rewrite <- Hsum in H1, H2. split.
  - apply (Qmult_le_r _ _ _ Hn). exact H1.
  - apply (Qmult_le_r _ _ _ Hn). exact H2.
Qed.

(** *** float64 rounding *)

Lemma pow2_pos (e : Z) : 0 < pow2 e.
Proof. apply Qpower_0_lt. reflexivity. Qed.

Lemma pow2_plus (a b : Z) : pow2 (a + b) == pow2 a * pow2 b.
Proof. apply Qpower_plus. discriminate. Qed.

Lemma pow2_Z (n : Z) : (0 <= n)%Z -> pow2 n == inject_Z (2 ^ n).
Proof. intros H. symmetry. apply (Zpower_Qpower 2 n H). Qed.

Lemma ilog2_lower (q : Q) : 0 < q -> pow2 (ilog2 q) <= q.
Proof.
  intros Hq. unfold ilog2.
  destruct (Qle_bool (pow2 (Z.log2 (Qnum q) - Z.log2 (Z.pos (Qden q)))) q) eqn:E;
    [apply Qle_bool_iff, E|].
  clear E. destruct q as [n d]. cbn [Qnum Qden].
  assert (Hn : (0 < n)%Z) by (unfold Qlt in Hq; simpl in Hq; lia).
  destruct (Z.log2_spec n Hn) as [Hn1 _].
  destruct (Z.log2_spec (Z.pos d) (Pos2Z.is_pos d)) as [_ Hd2].
  pose proof (Z.log2_nonneg n) as Hln. pose proof (Z.log2_nonneg (Z.pos d)) as Hld.
  set (ln := Z.log2 n) in *. set (ld := Z.log2 (Z.pos d)) in *.
  replace (ln - ld - 1)%Z with (ln + - Z.succ ld)%Z by lia.
  rewrite pow2_plus. unfold pow2 at 2. rewrite Qpower_opp. fold (pow2 (Z.succ ld)).
  rewrite !pow2_Z by lia.
  assert (Hp : exists p, (2 ^ Z.succ ld)%Z = Z.pos p).
  { destruct (2 ^ Z.succ ld)%Z as [|p|p] eqn:Ep; try lia. exists p. reflexivity. }
  destruct Hp as [p Hp]. rewrite Hp in *.
  change (inject_Z (2 ^ ln) * / inject_Z (Z.pos p))
    with (inject_Z (2 ^ ln) / inject_Z (Z.pos p)).
  rewrite <- Qmake_Qdiv. unfold Qle. cbn [Qnum Qden].
  apply Z.mul_le_mono_nonneg; lia.
Qed.

Lemma fl_comp (x y : Q) : x == y -> fl x = fl y.
Proof. intros H. unfold fl. rewrite (Qred_complete x y H). reflexivity. Qed.

Lemma fl_zero (q : Q) : q == 0 -> fl q = 0.
Proof. intros H. rewrite (fl_comp q 0 H). reflexivity. Qed.

(** Rounding to float64 moves a positive number by at most one part in
    [2^53]. *)
Lemma fl_error_pos (q : Q) :
  0 < q -> Qabs (fl q - q) <= q * (1 # 9007199254740992).
Proof.
  intros Hq. unfold fl.
  assert (Hq' : Qred q == q) by apply Qred_correct.
  set (q' := Qred q) in *.
  destruct (Qeq_bool q' 0) eqn:E.
  { apply Qeq_bool_iff in E. rewrite Hq' in E. rewrite E in Hq. discriminate Hq. }
  set (e := (ilog2 (Qabs q') - 52)%Z). rewrite Qred_correct.
  pose proof (pow2_pos e) as Hs.
  assert (Hlow : pow2 e * 4503599627370496 <= q).
  { change 4503599627370496 with (pow2 52). rewrite <- pow2_plus.
    replace (e + 52)%Z with (ilog2 (Qabs q')) by (unfold e; lia).
    assert (Ha : Qabs q' == q) by (rewrite Hq'; apply Qabs_pos, Qlt_le_weak, Hq).
    apply Qle_trans with (Qabs q'); [|rewrite Ha; apply Qle_refl].
    apply ilog2_lower. rewrite Ha. exact Hq. }
  set (s := pow2 e) in *.
  pose proof (rint_nearest (q' / s)) as Hr.
  set (k := inject_Z (rint (q' / s))) in *.
  assert (Hy : q' / s * s == q).
  { rewrite <- Hq'. unfold Qdiv. rewrite <- Qmult_assoc, (Qmult_comm (/ s)).
    rewrite Qmult_inv_r; [apply Qmult_1_r|]. intros H0. rewrite H0 in Hs. discriminate Hs. }
  apply Qabs_Qle_condition in Hr. destruct Hr as [Hr1 Hr2].
  assert (H1 : (k - q' / s) * s <= (1 # 2) * s)
    by (apply Qmult_le_compat_r; [exact Hr2 | apply Qlt_le_weak, Hs]).
  assert (H2 : - (1 # 2) * s <= (k - q' / s) * s)
    by (apply Qmult_le_compat_r; [exact Hr1 | apply Qlt_le_weak, Hs]).
  set (y := q' / s) in *.
  apply Qabs_Qle_condition. split; lra.
Qed.

Lemma fl_error (q : Q) :
  0 <= q -> Qabs (fl q - q) <= q * (1 # 9007199254740992).
Proof.
  intros Hq. destruct (Qlt_le_dec 0 q) as [Hpos|Hzero]; [apply fl_error_pos, Hpos|].
  assert (H0 : q == 0) by (apply Qle_antisym; assumption).
  rewrite (fl_zero q H0), H0. discriminate.
Qed.

Lemma fl_nonneg (q : Q) : 0 <= q -> 0 <= fl q.
Proof.
  intros Hq. pose proof (fl_error q Hq) as H.
  apply Qabs_Qle_condition in H. destruct H as [H _]. lra.
Qed.

(** A whole number below [2^53] is a float64. *)
Lemma fl_whole (z : Z) :
  (0 <= z < 9007199254740992)%Z -> fl (inject_Z z) == inject_Z z.
Proof.
  intros [Hz0 Hz1].
  destruct (Z.eq_dec z 0) as [->|Hne]; [reflexivity|].
  assert (Hq : 0 < inject_Z z)
    by (change 0 with (inject_Z 0); rewrite <- Zlt_Qlt; lia).
  unfold fl.
  assert (Hq' : Qred (inject_Z z) == inject_Z z) by apply Qred_correct.
  set (q' := Qred (inject_Z z)) in *.
  destruct (Qeq_bool q' 0) eqn:E.
  { apply Qeq_bool_iff in E. rewrite Hq' in E. rewrite E in Hq. discriminate Hq. }
  rewrite Qred_correct.
  assert (Ha : Qabs q' == inject_Z z) by (rewrite Hq'; apply Qabs_pos, Qlt_le_weak, Hq).
  assert (Hl : (ilog2 (Qabs q') < 53)%Z).
  { apply (Qpower_lt_compat_l_inv 2); [|reflexivity].
    apply Qle_lt_trans with (Qabs q').
    - apply ilog2_lower. rewrite Ha. exact Hq.
    - rewrite Ha. change (2 ^ 53) with (inject_Z 9007199254740992).
      rewrite <- Zlt_Qlt. exact Hz1. }
  set (e := (ilog2 (Qabs q') - 52)%Z).
  assert (He : (0 <= - e)%Z) by (unfold e; lia).
  assert (Hinv : pow2 (- e) * pow2 e == 1).
  { rewrite <- pow2_plus. replace (- e + e)%Z with 0%Z by lia. reflexivity. }
  assert (Hdiv : q' / pow2 e == inject_Z (z * 2 ^ (- e))).
  { rewrite inject_Z_mult, <- pow2_Z by exact He. rewrite Hq'.
    apply Qmult_inj_r with (pow2 e).
    - pose proof (pow2_pos e) as Hs. intros H0. rewrite H0 in Hs. discriminate Hs.
    - unfold Qdiv. rewrite <- !Qmult_assoc, (Qmult_comm (/ pow2 e)), Hinv.
      rewrite Qmult_inv_r; [reflexivity|].
      pose proof (pow2_pos e) as Hs. intros H0. rewrite H0 in Hs. discriminate Hs. }
  rewrite (rint_comp _ _ Hdiv), rint_Z, inject_Z_mult, <- pow2_Z by exact He.
  rewrite <- Qmult_assoc, Hinv. apply Qmult_1_r.
Qed.

Lemma rint_nonneg (x : Q) : 0 <= x -> (0 <= rint x)%Z.
Proof.
  intros H. change 0%Z with (rint (inject_Z 0)) at 1.
  - apply rint_monotone. exact H.
Qed.

Lemma series_sum_nonneg (s : list Q) :
  (forall v, In v s -> 0 <= v) -> 0 <= series_sum s.
Proof.
  induction s as [|v s IH]; simpl; intros H; [discriminate|].
  assert (Hv : 0 <= v) by (apply H; left; reflexivity).
  assert (Hs : 0 <= series_sum s) by (apply IH; intros w Hw; apply H; right; exact Hw).
  lra.
Qed.

(** A left-to-right float64 sum of whole numbers is exact while it stays
    below [2^53]. *)
Lemma fsum_acc_whole (s : list Q) (acc : Q) (a : Z) :
  acc == inject_Z a -> (0 <= a)%Z ->
  (forall v, In v s -> exists z, (0 <= z)%Z /\ v == inject_Z z) ->
  acc + series_sum s < inject_Z 9007199254740992 ->
  fold_left (fun acc v => fl (acc + fl v)) s acc == acc + series_sum s.
Proof.
  revert acc a. induction s as [|v s IH]; intros acc a Hacc Ha Hall Hlt.
  - simpl. lra.
  - destruct (Hall v (or_introl eq_refl)) as [z [Hz Hv]].
    assert (Hs : 0 <= series_sum s).
    { apply series_sum_nonneg. intros w Hw.
      destruct (Hall w (or_intror Hw)) as [y [Hy ->]].
      change 0 with (inject_Z 0). rewrite <- Zle_Qle. exact Hy. }
    cbn [series_sum] in Hlt.
    assert (Hb : inject_Z (a + z) < inject_Z 9007199254740992).
    { rewrite inject_Z_plus, <- Hacc, <- Hv. lra. }
    rewrite <- Zlt_Qlt in Hb.
    assert (Hfv : fl v == inject_Z z).
    { rewrite (fl_comp v _ Hv). apply fl_whole. lia. }
    assert (Hstep : fl (acc + fl v) == inject_Z (a + z)).
    { rewrite (fl_comp (acc + fl v) (inject_Z (a + z))).
      - apply fl_whole. lia.
      - rewrite inject_Z_plus, Hacc, Hfv. reflexivity. }
    cbn [fold_left series_sum].
    rewrite (IH (fl (acc + fl v)) (a + z)%Z Hstep).
    + rewrite Hstep, inject_Z_plus, Hacc, Hv. lra.
    + lia.
    + intros w Hw. apply Hall. right. exact Hw.
    + rewrite Hstep, inject_Z_plus, <- Hacc, <- Hv. lra.
Qed.

Lemma fsum_whole (s : list Q) :
  (forall v, In v s -> exists z, (0 <= z)%Z /\ v == inject_Z z) ->
  series_sum s < inject_Z 9007199254740992 ->
  fsum s == series_sum s.
Proof.
  intros Hall Hlt. unfold fsum.
  rewrite (fsum_acc_whole s 0 0%Z); [lra | reflexivity | lia | exact Hall | lra].
Qed.

(** From the exact mean to the printed hundredths: the roundings of lines
    113 and 114 add up to at most 0.00506. *)
Lemma display_error (M : Q) :
  0 <= M -> M <= 1000000 ->
  Qabs (inject_Z (hundredths
                    (fl (fl (inject_Z (rint (fl (fl M * 10))) / 10) / 1000)))
        / 100 - M / 1000)
  <= 506 # 100000.
Proof.
  intros HM0 HM1.
  pose proof (fl_error M HM0) as E1. pose proof (fl_nonneg M HM0) as N1.
  set (m := fl M) in *.
  assert (N1' : 0 <= m * 10) by lra.
  pose proof (fl_error (m * 10) N1') as E2. pose proof (fl_nonneg (m * 10) N1') as N2.
  set (t := fl (m * 10)) in *.
  pose proof (rint_nearest t) as E3. pose proof (rint_nonneg t N2) as N3.
  rewrite Zle_Qle in N3. change (inject_Z 0) with 0 in N3.
  set (k := inject_Z (rint t)) in *.
  assert (N3' : 0 <= k / 10) by (unfold Qdiv; change (/ 10) with (1 # 10); lra).
  pose proof (fl_error (k / 10) N3') as E4. pose proof (fl_nonneg (k / 10) N3') as N4.
  set (g := fl (k / 10)) in *.
  assert (N4' : 0 <= g / 1000) by (unfold Qdiv; change (/ 1000) with (1 # 1000); lra).
  pose proof (fl_error (g / 1000) N4') as E5.
  set (x := fl (g / 1000)) in *.
  pose proof (hundredths_near x) as E6.
  set (h := inject_Z (hundredths x)) in *.
  apply Qabs_Qle_condition in E1, E2, E3, E4, E5, E6. apply Qabs_Qle_condition.
  unfold Qdiv in *. change (/ 10) with (1 # 10) in *.
  change (/ 100) with (1 # 100) in *. change (/ 1000) with (1 # 1000) in *.
  destruct E1, E2, E3, E4, E5, E6. split; lra.
Qed.

Lemma fmean_nonempty (s : list Q) :
  s <> [] ->
  fmean s
  = f64_fin (negb (Qle_bool 0 (fsum s / inject_Z (Z.of_nat (List.length s)))))
            (fl (Qabs (fsum s / inject_Z (Z.of_nat (List.length s))))).
Proof. destruct s as [|v s]; [congruence | reflexivity]. Qed.

Lemma kg_hundredths_nonneg (m : Q) :
  0 <= m ->
  (0 <= hundredths (fl (fl (inject_Z (rint (fl (m * 10))) / 10) / 1000)))%Z.
Proof.
  intros Hm. unfold hundredths. apply rint_nonneg.
  assert (H1 : 0 <= fl (m * 10)) by (apply fl_nonneg; lra).
  pose proof (rint_nonneg _ H1) as H2. rewrite Zle_Qle in H2.
  change (inject_Z 0) with 0 in H2.
  set (k := inject_Z (rint (fl (m * 10)))) in *.
  assert (H3 : 0 <= fl (k / 10)).
  { apply fl_nonneg. unfold Qdiv. change (/ 10) with (1 # 10). lra. }
  set (g := fl (k / 10)) in *.
  assert (H4 : 0 <= fl (g / 1000)).
  { apply fl_nonneg. unfold Qdiv. change (/ 1000) with (1 # 1000). lra. }
  lra.
Qed.

(** C3, as the code has it: on a non-empty view the body-mass metric is
    obtained from the float64 mean of [body_mass_g] by first rounding it
    to one decimal (line 113: [k] tenths of a gram), then dividing by 1000
    and printing with exactly two decimals, followed by the unit.  The
    string reads back as the sign of the mean and the number [h] of
    hundredths nearest to the quotient.  For whole masses of at most a
    tonne the printed number is within 0.00506 of the exact mean in
    kilograms. *)
Theorem avg_body_mass_display (view : DataFrame) :
  view <> [] ->
  exists (neg : bool) (m : Q) (k h : Z),
    fmean (column body_mass_g view) = f64_fin neg m /\
    k = rint (fl (m * 10)) /\
    metric_value "Avg. Body Mass (g)" (elements (render view))
    = Some (StrVal (format_2f (f64_fin neg (fl (fl (inject_Z k / 10) / 1000)))
                    ++ " kg")) /\
    two_decimals (format_2f (f64_fin neg (fl (fl (inject_Z k / 10) / 1000)))) /\
    parse_2f (format_2f (f64_fin neg (fl (fl (inject_Z k / 10) / 1000))))
    = Some (neg, h) /\
    Qabs (inject_Z h / 100 - fl (fl (inject_Z k / 10) / 1000)) <= 1 # 200 /\
    (whole_grams view ->
     series_sum (column body_mass_g view) < inject_Z 9007199254740992 ->
     exists M,
       mean (column body_mass_g view) = Some M /\
       neg = false /\ m = fl M /\
       Qabs (inject_Z h / 100 - M / 1000) <= 506 # 100000).
Proof.
  intros Hne.
  assert (Hcol : column body_mass_g view <> [])
    by (destruct view; [congruence | discriminate]).
  pose proof (fmean_nonempty _ Hcol) as Hm.
  set (masses := column body_mass_g view) in *.
  set (q := fsum masses / inject_Z (Z.of_nat (List.length masses))) in *.
  assert (Hm0 : 0 <= fl (Qabs q)) by apply fl_nonneg, Qabs_nonneg.
  exists (negb (Qle_bool 0 q)), (fl (Qabs q)), (rint (fl (fl (Qabs q) * 10))),
    (hundredths (fl (fl (inject_Z (rint (fl (fl (Qabs q) * 10))) / 10) / 1000))).
  split; [exact Hm|]. split; [reflexivity|]. split.
  { destruct view as [|r d]; [congruence|].
    rewrite render_nonempty.
    cbn [elements metric_value String.eqb Ascii.eqb Bool.eqb].
    fold masses. rewrite Hm. reflexivity. }
  split; [apply format_2f_two_decimals|].
  split; [apply parse_format_2f, kg_hundredths_nonneg, Hm0|].
  split; [apply hundredths_near|].
  intros Hwhole Hsum.
  destruct (mean_nonempty masses Hcol) as [M [HM HMsum]].
  exists M. split; [exact HM|].
  assert (Hall : forall v, In v masses ->
                           exists z, (0 <= z <= 1000000)%Z /\ v == inject_Z z).
  { intros v Hv. unfold masses, column in Hv. apply in_map_iff in Hv.
    destruct Hv as [r [<- Hr]]. apply Hwhole, Hr. }
  assert (Hb : 0 <= M /\ M <= 1000000).
  { apply (mean_bounds masses); [|exact HM].
    intros v Hv. destruct (Hall v Hv) as [z [[Hz0 Hz1] ->]].
    change 0 with (inject_Z 0). change 1000000 with (inject_Z 1000000).
    rewrite <- !Zle_Qle. split; assumption. }
  assert (Hf : fsum masses == series_sum masses).
  { apply fsum_whole; [|exact Hsum]. intros v Hv.
    destruct (Hall v Hv) as [z [[Hz0 _] Hz]]. exists z. split; assumption. }
  assert (HqM : q == M).
  { destruct masses as [|v s]; [congruence|]. injection HM as <-.
    unfold q. rewrite Hf. reflexivity. }
  assert (Hneg : Qle_bool 0 q = true)
    by (apply Qle_bool_iff; rewrite HqM; apply Hb).
  assert (HflM : fl (Qabs q) = fl M).
  { apply fl_comp. rewrite HqM. apply Qabs_pos, Hb. }
  rewrite Hneg, HflM. split; [reflexivity|]. split; [reflexivity|].
  apply display_error; apply Hb.
Qed.

Lemma avg_body_mass_display_witness :
  scenario_df <> [] /\
  exists (neg : bool) (m : Q) (k h : Z),
    fmean (column body_mass_g scenario_df) = f64_fin neg m /\
    k = rint (fl (m * 10)) /\
    metric_value "Avg. Body Mass (g)" (elements (render scenario_df))
    = Some (StrVal (format_2f (f64_fin neg (fl (fl (inject_Z k / 10) / 1000)))
                    ++ " kg")) /\
    two_decimals (format_2f (f64_fin neg (fl (fl (inject_Z k / 10) / 1000)))) /\
    parse_2f (format_2f (f64_fin neg (fl (fl (inject_Z k / 10) / 1000))))
    = Some (neg, h) /\
    Qabs (inject_Z h / 100 - fl (fl (inject_Z k / 10) / 1000)) <= 1 # 200 /\
    (whole_grams scenario_df ->
     series_sum (column body_mass_g scenario_df) < inject_Z 9007199254740992 ->
     exists M,
       mean (column body_mass_g scenario_df) = Some M /\
       neg = false /\ m = fl M /\
       Qabs (inject_Z h / 100 - M / 1000) <= 506 # 100000).
Proof.
  split; [discriminate|].
  apply (avg_body_mass_display scenario_df). discriminate.
Defined.

(** C3 as stated fails: for twenty rows of 3125 g and one of 3126 g the
    mean is 3125.0476..., which over 1000 prints as 3.13; the script rounds
    it to 3125.0 first and shows 3.12. *)
Lemma avg_body_mass_counterexample :
  df_selection tie_df tie_sidebar = tie_df /\
  metric_value "Avg. Body Mass (g)" (elements (app tie_df tie_sidebar))
  = Some (StrVal "3.12 kg") /\
  format_2f (f64_div (fmean (column body_mass_g tie_df)) 1000) = "3.13"%string /\
  ~ displays_exact_mean (df_selection tie_df tie_sidebar).
Proof.
  split; [reflexivity|]. split; [vm_compute; reflexivity|].
  split; [vm_compute; reflexivity|].
  unfold displays_exact_mean. vm_compute. discriminate.
Qed.

(** The float64 quotient decides the last digit: one row of 4675 g shows
    4.67 (4.675 is not a float64, the nearest one is below it), one row of
    3325 g shows 3.33, and a mean between -0.05 and 0 shows a negative
    zero. *)
Example float64_displays :
  metric_value "Avg. Body Mass (g)" (elements (render [tie_row 4675]))
  = Some (StrVal "4.67 kg") /\
  metric_value "Avg. Body Mass (g)" (elements (render [tie_row 3325]))
  = Some (StrVal "3.33 kg") /\
  metric_value "Avg. Body Mass (g)" (elements (render [tie_row (- (1 # 25))]))
  = Some (StrVal "-0.00 kg") /\
  metric_value "Avg. Bill Length (mm)"
    (elements (render [mkRow "Adelie" "Torgersen" "male" (301 # 10) (187 # 10) 3750;
                       mkRow "Adelie" "Torgersen" "male" (352 # 10) (187 # 10) 3750]))
  = Some (FloatVal (nearest (327 # 10))).
Proof. repeat split; vm_compute; reflexivity. Qed.


(** ** Group-by *)

Section SortKeys.

Lemma insert_key_perm (k : string) (ks : list string) :
  Permutation (k :: ks) (insert_key k ks).
Proof.
  induction ks as [|k' ks IH]; simpl; [apply Permutation_refl|].
  destruct (String.leb k k'); [apply Permutation_refl|].
  eapply perm_trans; [apply perm_swap|]. apply perm_skip, IH.
Qed.

Lemma sort_keys_perm (ks : list string) : Permutation ks (sort_keys ks).
Proof.
  induction ks as [|k ks IH]; simpl; [apply perm_nil|].
  eapply perm_trans; [apply perm_skip, IH | apply insert_key_perm].
Qed.




End SortKeys.


Lemma avg_mass_by_species_entry (view : DataFrame) (k : string) (v : float) :
  In (k, v) (avg_mass_by_species view) ->
  In k (column species view) /\
  v = round (mean (column body_mass_g (rows_of_species k view))) 1.
Proof.
  unfold avg_mass_by_species, groupby. rewrite map_map. simpl.
  intros H. apply in_map_iff in H. destruct H as [k' [Heq Hin]].
  injection Heq as -> <-. split; [|reflexivity].
  apply unique_In. eapply Permutation_in; [|exact Hin].
  apply Permutation_sym, sort_keys_perm.
Qed.

Lemma rows_of_species_nonempty (view : DataFrame) (k : string) :
  In k (column species view) -> rows_of_species k view <> [].
Proof.
  unfold column. intros H. apply in_map_iff in H. destruct H as [r [Hk Hr]].
  intros Hnil.
  assert (Hin : In r (rows_of_species k view)).
  { apply filter_In. split; [exact Hr | apply String.eqb_eq, Hk]. }
  rewrite Hnil in Hin. exact Hin.
Qed.



(** ** The script over the object store *)

Section StoreFacts.

Lemma extend_lookup (h ext : Store.Heap) (r : Store.Ref) (d : DataFrame) :
  nth_error h r = Some d -> nth_error (h ++ ext) r = Some d.
Proof.
  intros H. rewrite nth_error_app1; [exact H|].
  apply nth_error_Some. congruence.
Qed.

Lemma alloc_lookup (h : Store.Heap) (d : DataFrame) :
  nth_error (h ++ [d]) (List.length h) = Some d.
Proof. rewrite nth_error_app2, Nat.sub_diag by lia. reflexivity. Qed.

Lemma bind_run {A B : Type} (m : Store.Py A) (k : A -> Store.Py B)
      (h h' : Store.Heap) (a : A) :
  m h = Some (a, h') -> Store.bind m k h = k a h'.
Proof. intros H. unfold Store.bind. rewrite H. reflexivity. Qed.

Lemma copy_ref_run (h : Store.Heap) (r : Store.Ref) (d : DataFrame) :
  nth_error h r = Some d ->
  Store.copy_ref r h = Some (List.length h, h ++ [copy d]).
Proof.
  intros H. unfold Store.copy_ref, Store.bind, Store.deref, Store.alloc.
  rewrite H. reflexivity.
Qed.

Lemma getitem_ref_run (h : Store.Heap) (r : Store.Ref) (d : DataFrame)
      (mask : DataFrame -> list bool) :
  nth_error h r = Some d ->
  Store.getitem_ref r mask h = Some (List.length h, h ++ [getitem d (mask d)]).
Proof.
  intros H. unfold Store.getitem_ref, Store.bind, Store.deref, Store.alloc.
  rewrite H. reflexivity.
Qed.

(** A guarded filter step yields a reference to the filtered rows, or
    the reference it was given, and only ever adds objects. *)
Lemma guarded_getitem_run (c : bool) (h : Store.Heap) (r : Store.Ref)
      (d : DataFrame) (mask : DataFrame -> list bool) :
  nth_error h r = Some d ->
  exists r' ext,
    (if c then Store.getitem_ref r mask else Store.ret r) h = Some (r', h ++ ext) /\
    nth_error (h ++ ext) r' = Some (if c then getitem d (mask d) else d).
Proof.
  intros H. destruct c.
  - exists (List.length h), [getitem d (mask d)]. split.
    + apply getitem_ref_run, H.
    + apply alloc_lookup.
  - exists r, []. rewrite app_nil_r. split; [reflexivity | exact H].
Qed.

(** Lines 74-90 over the store: the first new object is the copy of the
    frame, the returned reference is a new object holding the view, and
    the objects that were there are left as they were. *)
Lemma df_selection_run (h : Store.Heap) (df : Store.Ref) (d : DataFrame)
      (sb : Sidebar) :
  nth_error h df = Some d ->
  exists r ext,
    Store.df_selection df sb h = Some (r, h ++ copy d :: ext) /\
    nth_error (h ++ copy d :: ext) r = Some (df_selection d sb) /\
    (List.length h < r)%nat.
Proof.
  intros Hd. unfold Store.df_selection.
  rewrite (bind_run _ _ _ _ _ (copy_ref_run h df d Hd)).
  pose proof (alloc_lookup h (copy d)) as H0.
  destruct (guarded_getitem_run (truthy (sel_species sb)) _ _ _
              (fun d => isin (column species d) (sel_species sb)) H0)
    as [r1 [e1 [Hrun1 H1]]].
  rewrite (bind_run _ _ _ _ _ Hrun1).
  destruct (guarded_getitem_run (truthy (sel_island sb)) _ _ _
              (fun d => isin (column island d) (sel_island sb)) H1)
    as [r2 [e2 [Hrun2 H2]]].
  rewrite (bind_run _ _ _ _ _ Hrun2).
  destruct (guarded_getitem_run (truthy (sel_sex sb)) _ _ _
              (fun d => isin (column sex d) (sel_sex sb)) H2)
    as [r3 [e3 [Hrun3 H3]]].
  rewrite (bind_run _ _ _ _ _ Hrun3).
  rewrite (getitem_ref_run _ _ _ _ H3).
  assert (Hheap :
            ((((h ++ [copy d]) ++ e1) ++ e2) ++ e3) ++ [df_selection d sb]
            = h ++ copy d :: e1 ++ e2 ++ e3 ++ [df_selection d sb])
    by (rewrite <- !app_assoc; reflexivity).
  exists (List.length ((((h ++ [copy d]) ++ e1) ++ e2) ++ e3)),
         (e1 ++ e2 ++ e3 ++ [df_selection d sb]).
  rewrite <- Hheap. split; [reflexivity|]. split.
  - apply alloc_lookup.
  - rewrite !length_app. simpl. lia.
Qed.

Lemma app_run (h : Store.Heap) (df : Store.Ref) (d : DataFrame) (sb : Sidebar) :
  nth_error h df = Some d ->
  exists ext, Store.app df sb h = Some (app d sb, h ++ copy d :: ext).
Proof.
  intros Hd. destruct (df_selection_run h df d sb Hd) as [r [ext [Hrun [Hr _]]]].
  exists ext. unfold Store.app.
  rewrite (bind_run _ _ _ _ _ Hrun).
  unfold Store.bind, Store.deref. rewrite Hr. reflexivity.
Qed.

End StoreFacts.

(** C9: the outcome of a run (the view, the metrics, the aggregate by
    species and the chart data) is a function of the rows of the dataset
    and of the sidebar state alone: two runs on the same rows and the same
    choices give the same outcome whatever else the store holds, and so
    does a run started from the store that an earlier run left behind. *)
Theorem app_deterministic (h1 h2 : Store.Heap) (r1 r2 : Store.Ref)
        (d : DataFrame) (sb : Sidebar) :
  nth_error h1 r1 = Some d ->
  nth_error h2 r2 = Some d ->
  exists out h1' h2' h1'',
    Store.app r1 sb h1 = Some (out, h1') /\
    Store.app r2 sb h2 = Some (out, h2') /\
    Store.app r1 sb h1' = Some (out, h1'') /\
    out = app d sb /\
    exists s1 g1 s2 g2,
      Store.df_selection r1 sb h1 = Some (s1, g1) /\
      Store.df_selection r2 sb h2 = Some (s2, g2) /\
      nth_error g1 s1 = Some (df_selection d sb) /\
      nth_error g2 s2 = Some (df_selection d sb).
Proof.
  intros H1 H2.
  destruct (app_run h1 r1 d sb H1) as [e1 Hrun1].
  destruct (app_run h2 r2 d sb H2) as [e2 Hrun2].
  destruct (app_run (h1 ++ copy d :: e1) r1 d sb (extend_lookup _ _ _ _ H1))
    as [e3 Hrun3].
  destruct (df_selection_run h1 r1 d sb H1) as [s1 [x1 [Hs1 [Hv1 _]]]].
  destruct (df_selection_run h2 r2 d sb H2) as [s2 [x2 [Hs2 [Hv2 _]]]].
  exists (app d sb), (h1 ++ copy d :: e1), (h2 ++ copy d :: e2),
         ((h1 ++ copy d :: e1) ++ copy d :: e3).
  repeat (split; [assumption || reflexivity|]).
  exists s1, (h1 ++ copy d :: x1), s2, (h2 ++ copy d :: x2).
  repeat split; assumption.
Qed.

Lemma app_deterministic_witness :
  nth_error [scenario_df] 0%nat = Some scenario_df /\
  nth_error [swapped_df; scenario_df] 1%nat = Some scenario_df /\
  exists out h1' h2' h1'',
    Store.app 0%nat scenario_sidebar [scenario_df] = Some (out, h1') /\
    Store.app 1%nat scenario_sidebar [swapped_df; scenario_df] = Some (out, h2') /\
    Store.app 0%nat scenario_sidebar h1' = Some (out, h1'') /\
    out = app scenario_df scenario_sidebar /\
    exists s1 g1 s2 g2,
      Store.df_selection 0%nat scenario_sidebar [scenario_df] = Some (s1, g1) /\
      Store.df_selection 1%nat scenario_sidebar [swapped_df; scenario_df] = Some (s2, g2) /\
      nth_error g1 s1 = Some (df_selection scenario_df scenario_sidebar) /\
      nth_error g2 s2 = Some (df_selection scenario_df scenario_sidebar).
Proof.
  split; [reflexivity|]. split; [reflexivity|].
  apply (app_deterministic [scenario_df] [swapped_df; scenario_df] 0%nat 1%nat
                           scenario_df scenario_sidebar); reflexivity.
Defined.

(** C10: a run leaves the loaded dataset as it was: the filters work on a
    copy allocated by the run, the view is an object of its own, and every
    object that was in the store before the run, the dataset among them,
    holds the same rows after it. *)
Theorem dataset_unchanged (h : Store.Heap) (df : Store.Ref) (d : DataFrame)
        (sb : Sidebar) :
  nth_error h df = Some d ->
  exists out h',
    Store.app df sb h = Some (out, h') /\
    nth_error h' df = Some d /\
    (forall r x, nth_error h r = Some x -> nth_error h' r = Some x) /\
    (exists ext, h' = h ++ copy d :: ext) /\
    exists s g, Store.df_selection df sb h = Some (s, g) /\ s <> df.
Proof.
  intros Hd.
  destruct (app_run h df d sb Hd) as [ext Hrun].
  destruct (df_selection_run h df d sb Hd) as [s [x [Hs [_ Hlt]]]].
  exists (app d sb), (h ++ copy d :: ext).
  split; [exact Hrun|]. split; [apply extend_lookup, Hd|].
  split; [intros r y Hr; apply extend_lookup, Hr|].
  split; [exists ext; reflexivity|].
  exists s, (h ++ copy d :: x). split; [exact Hs|].
  assert (Hdf : (df < List.length h)%nat) by (apply nth_error_Some; congruence).
  lia.
Qed.

Lemma dataset_unchanged_witness :
  nth_error [scenario_df] 0%nat = Some scenario_df /\
  exists out h',
    Store.app 0%nat scenario_sidebar [scenario_df] = Some (out, h') /\
    nth_error h' 0%nat = Some scenario_df /\
    (forall r x, nth_error [scenario_df] r = Some x -> nth_error h' r = Some x) /\
    (exists ext, h' = [scenario_df] ++ copy scenario_df :: ext) /\
    exists s g, Store.df_selection 0%nat scenario_sidebar [scenario_df] = Some (s, g)
                /\ s <> 0%nat.
Proof.
  split; [reflexivity|].
  apply (dataset_unchanged [scenario_df] 0%nat scenario_df scenario_sidebar).
  reflexivity.
Defined.

(** * Further properties of the script *)

(** ** Loading *)

Lemma row_of_complete (r : RawRow) :
  has_na r = false -> exists row, row_of r = Some row.
Proof.
  unfold has_na, row_of. intros H.
  repeat (apply orb_false_iff in H; destruct H as [H ?]).
  destruct (raw_species r), (raw_island r), (raw_sex r),
    (raw_bill_length_mm r), (raw_bill_depth_mm r), (raw_body_mass_g r);
    try discriminate.
  eexists. reflexivity.
Qed.

Lemma rows_of_length (raw : list RawRow) :
  Forall (fun r => has_na r = false) raw ->
  List.length (rows_of raw) = List.length raw.
Proof.
  induction 1 as [|r raw Hr _ IH]; simpl; [reflexivity|].
  destruct (row_of_complete r Hr) as [row ->]. simpl. rewrite IH. reflexivity.
Qed.

Lemma dropna_complete (csv : list RawRow) :
  Forall (fun r => has_na r = false) (dropna csv).
Proof.
  apply Forall_forall. intros r Hr. apply filter_In in Hr.
  destruct Hr as [_ Hr]. apply negb_true_iff, Hr.
Qed.

Lemma filter_split_length {A : Type} (p : A -> bool) (l : list A) :
  (List.length (filter (fun x => negb (p x)) l) + List.length (filter p l)
   = List.length l)%nat.
Proof.
  induction l as [|x l IH]; simpl; [reflexivity|].
  destruct (p x); simpl; lia.
Qed.

Lemma load_data_length (csv : list RawRow) :
  List.length (load_data csv) = List.length (dropna csv).
Proof. unfold load_data. apply rows_of_length, dropna_complete. Qed.

(** X1: every line of the CSV is either loaded or has a missing value:
    the loaded frame has as many rows as the CSV has lines without a
    missing cell, whichever column the missing cell is in. *)
Theorem load_data_counts (csv : list RawRow) :
  (List.length (load_data csv) + List.length (filter has_na csv)
   = List.length csv)%nat.
Proof.
  rewrite load_data_length. unfold dropna. apply filter_split_length.
Qed.

Lemma dropna_nil_iff (csv : list RawRow) :
  dropna csv = [] <-> Forall (fun r => has_na r = true) csv.
Proof.
  unfold dropna. induction csv as [|r csv IH]; simpl.
  - split; [constructor | reflexivity].
  - destruct (has_na r) eqn:E; simpl.
    + split; intros H.
      * constructor; [exact E | apply IH, H].
      * inversion H; subst. apply IH. assumption.
    + split; [discriminate|]. intros H. inversion H. congruence.
Qed.

Lemma load_data_nil_iff (csv : list RawRow) :
  load_data csv = [] <-> Forall (fun r => has_na r = true) csv.
Proof.
  split; intros H.
  - apply dropna_nil_iff. apply length_zero_iff_nil.
    rewrite <- load_data_length, H. reflexivity.
  - apply dropna_nil_iff in H. unfold load_data. rewrite H. reflexivity.
Qed.

Lemma series_min_none (s : list Q) : series_min s = None <-> s = [].
Proof. destruct s; simpl; split; intros H; congruence. Qed.

Lemma min_max_mass_none (df : DataFrame) : min_max_mass df = None <-> df = [].
Proof.
  destruct df as [|r d]; simpl; split; intros H; try reflexivity; discriminate H.
Qed.

(** X2: line 63 raises (the minimum of an empty column is NaN) exactly
    when every line of the CSV has a missing value; no sidebar is built
    then. *)
Theorem line_63_raises_iff_no_complete_line (csv : list RawRow) :
  (min_max_mass (load_data csv) = None
   <-> Forall (fun r => has_na r = true) csv) /\
  (Forall (fun r => has_na r = true) csv ->
   default_sidebar (load_data csv) = None).
Proof.
  split.
  - split; intros H.
    + apply load_data_nil_iff, min_max_mass_none, H.
    + apply min_max_mass_none, load_data_nil_iff, H.
  - intros H. apply load_data_nil_iff in H. rewrite H. reflexivity.
Qed.

Lemma reruns_hit (remotes : list (option (list RawRow))) (d : DataFrame) :
  reruns remotes (Some d) = repeat (Some d) (List.length remotes).
Proof.
  induction remotes as [|remote remotes IH]; simpl; [reflexivity|].
  rewrite IH. reflexivity.
Qed.

Lemma reruns_failures (pre rest : list (option (list RawRow))) :
  Forall (fun remote => remote = None) pre ->
  reruns (pre ++ rest) None = repeat None (List.length pre) ++ reruns rest None.
Proof.
  induction 1 as [|remote pre Hr _ IH]; simpl; [reflexivity|].
  subst remote. simpl. rewrite IH. reflexivity.
Qed.

(** X3: a failed fetch is not cached and the next rerun fetches again; from
    the first fetch that succeeds on, every rerun of the process gets the
    frame of that fetch, whatever the remote file holds by then and
    whether or not it can still be fetched. *)
Theorem cache_keeps_first_fetch (pre post : list (option (list RawRow)))
        (csv : list RawRow) :
  Forall (fun remote => remote = None) pre ->
  reruns (pre ++ Some csv :: post) None
  = repeat None (List.length pre)
    ++ repeat (Some (load_data csv)) (S (List.length post)).
Proof.
  intros Hpre. rewrite (reruns_failures pre _ Hpre). f_equal.
  simpl. rewrite reruns_hit. reflexivity.
Qed.

Lemma cache_keeps_first_fetch_witness :
  Forall (fun remote : option (list RawRow) => remote = None) [None] /\
  reruns ([None] ++ Some sample_csv :: [None; Some []]) None
  = [None;
     Some [adelie_row; gentoo_row]; Some [adelie_row; gentoo_row];
     Some [adelie_row; gentoo_row]].
Proof.
  split; [repeat constructor|].
  rewrite (cache_keeps_first_fetch [None] [None; Some []] sample_csv).
  - reflexivity.
  - repeat constructor.
Defined.

(** ** The sidebar widgets *)

(** X4: the options offered by a multiselect (lines 42-59) are pairwise
    distinct and are exactly the values that occur in the column; a frame
    without rows offers no option. *)
Theorem multiselect_options (col : Row -> string) (df : DataFrame) :
  NoDup (unique (column col df)) /\
  (forall v, In v (unique (column col df)) <-> exists r, In r df /\ col r = v) /\
  (unique (column col df) = [] <-> df = []).
Proof.
  split; [apply unique_NoDup|]. split.
  - intros v. rewrite unique_In. unfold column. rewrite in_map_iff.
    split; intros [r [H1 H2]]; exists r; split; assumption.
  - destruct df as [|r d]; simpl; split; intros H;
      try reflexivity; discriminate H.
Qed.

Lemma series_min_le_max (s : list Q) (lo hi : Q) :
  series_min s = Some lo -> series_max s = Some hi -> lo <= hi.
Proof.
  intros Hlo Hhi. destruct s as [|v s]; [discriminate Hlo|].
  apply Qle_trans with v.
  - apply (series_min_le _ _ Hlo). left. reflexivity.
  - apply (series_max_ge _ _ Hhi). left. reflexivity.
Qed.

Lemma int_monotone (p q : Q) (a b : Z) :
  p <= q -> int (Some p) = Some a -> int (Some q) = Some b -> (a <= b)%Z.
Proof.
  intros Hpq Ha Hb.
  destruct (Qlt_le_dec p 0) as [Hp|Hp]; destruct (Qlt_le_dec q 0) as [Hq|Hq].
  - rewrite int_nonpos in Ha, Hb by (apply Qlt_le_weak; assumption).
    injection Ha as <-. injection Hb as <-. apply Qceiling_resp_le, Hpq.
  - rewrite int_nonpos in Ha by (apply Qlt_le_weak; assumption).
    rewrite int_nonneg in Hb by assumption.
    injection Ha as <-. injection Hb as <-.
    apply Z.le_trans with 0%Z.
    + change 0%Z with (Qceiling 0). apply Qceiling_resp_le, Qlt_le_weak, Hp.
    + change 0%Z with (Qfloor 0). apply Qfloor_resp_le, Hq.
  - exfalso. apply (Qlt_irrefl 0).
    apply Qle_lt_trans with p; [exact Hp|].
    apply Qle_lt_trans with q; assumption.
  - rewrite int_nonneg in Ha, Hb by assumption.
    injection Ha as <-. injection Hb as <-. apply Qfloor_resp_le, Hpq.
Qed.

(** X5: line 63 raises exactly when the frame has no row and never
    yields [min_mass > max_mass]; the slider of lines 64-69 is refused
    exactly when the two bounds are equal, and otherwise it starts at the
    whole range [(min_mass, max_mass)]. *)
Theorem slider_bounds_ordered (df : DataFrame) :
  (min_max_mass df = None <-> df = []) /\
  (forall min_mass max_mass,
      min_max_mass df = Some (min_mass, max_mass) ->
      (min_mass <= max_mass)%Z /\
      (default_slider df = None <-> min_mass = max_mass) /\
      ((min_mass < max_mass)%Z ->
       default_slider df = Some (inject_Z min_mass, inject_Z max_mass))).
Proof.
  split; [apply min_max_mass_none|].
  intros a b H.
  assert (Hab : (a <= b)%Z).
  { unfold min_max_mass in H.
    destruct (series_min (column body_mass_g df)) as [lo|] eqn:Hlo;
      [|discriminate H].
    destruct (series_max (column body_mass_g df)) as [hi|] eqn:Hhi;
      [|discriminate H].
    destruct (int_total lo) as [a' Ha]. destruct (int_total hi) as [b' Hb].
    rewrite Ha, Hb in H. injection H as <- <-.
    eapply int_monotone; [|exact Ha|exact Hb].
    eapply series_min_le_max; eassumption. }
  split; [exact Hab|].
  unfold default_slider, slider. rewrite H. cbn [fst snd].
  destruct (Z.ltb_spec a b) as [Hlt|Hge]; split.
  - split; [discriminate | lia].
  - reflexivity.
  - split; [lia | reflexivity].
  - lia.
Qed.

(** ** Filtering *)

Lemma in_df_selection (df : DataFrame) (sb : Sidebar) (r : Row) :
  In r (df_selection df sb) <-> In r df /\ matchesb sb r = true.
Proof. rewrite df_selection_filter. apply filter_In. Qed.

(** X6: before any interaction, on a frame whose masses are not negative,
    a row is shown exactly when its mass is at most the greatest mass
    rounded down: only rows above the truncated upper bound are left out. *)
Theorem default_view_rows (df : DataFrame) (sb : Sidebar) (hi : Q) :
  (forall m, In m (column body_mass_g df) -> 0 <= m) ->
  default_sidebar df = Some sb ->
  series_max (column body_mass_g df) = Some hi ->
  forall r, In r df ->
            (In r (df_selection df sb) <-> body_mass_g r <= inject_Z (Qfloor hi)).
Proof.
  intros Hpos Hsb Hhi r Hr.
  assert (Hm : In (body_mass_g r) (column body_mass_g df))
    by (unfold column; apply in_map, Hr).
  destruct (series_min (column body_mass_g df)) as [lo|] eqn:Hlo.
  2:{ apply series_min_none in Hlo. rewrite Hlo in Hm. destruct Hm. }
  assert (Hlo0 : 0 <= lo) by (apply Hpos; eapply series_min_In; eassumption).
  assert (Hhi0 : 0 <= hi) by (apply Hpos; eapply series_max_In; eassumption).
  unfold default_sidebar in Hsb.
  rewrite (default_slider_value df lo hi _ _ Hlo Hhi
             (int_nonneg lo Hlo0) (int_nonneg hi Hhi0)) in Hsb.
  destruct (Qfloor lo <? Qfloor hi)%Z; [|discriminate Hsb].
  injection Hsb as <-.
  rewrite in_df_selection. unfold matchesb, mass_test. simpl.
  rewrite andb_true_iff, !Qle_bool_iff. split.
  - intros [_ [_ H]]. exact H.
  - intros H. split; [exact Hr|]. split; [|exact H].
    apply Qle_trans with lo; [apply Qfloor_le|].
    eapply series_min_le; eassumption.
Qed.

Lemma default_view_rows_witness :
  (forall m, In m (column body_mass_g fractional_df) -> 0 <= m) /\
  default_sidebar fractional_df = Some (mkSidebar [] [] [] (3750, 4500)) /\
  series_max (column body_mass_g fractional_df) = Some (9001 # 2) /\
  forall r, In r fractional_df ->
            (In r (df_selection fractional_df (mkSidebar [] [] [] (3750, 4500)))
             <-> body_mass_g r <= inject_Z (Qfloor (9001 # 2))).
Proof.
  assert (H : forall m, In m (column body_mass_g fractional_df) -> 0 <= m).
  { intros m [<-|[<-|[]]]; discriminate. }
  split; [exact H|]. split; [reflexivity|]. split; [reflexivity|].
  apply (default_view_rows fractional_df (mkSidebar [] [] [] (3750, 4500))
                           (9001 # 2) H); reflexivity.
Defined.

Lemma filter_idem {A : Type} (p : A -> bool) (l : list A) :
  filter p (filter p l) = filter p l.
Proof.
  apply filter_all. intros x Hx. apply filter_In in Hx. apply Hx.
Qed.

(** X7: filtering is idempotent: running lines 74-90 again on the view,
    with the same sidebar state, returns the view. *)
Theorem df_selection_idempotent (df : DataFrame) (sb : Sidebar) :
  df_selection (df_selection df sb) sb = df_selection df sb.
Proof. rewrite !df_selection_filter. apply filter_idem. Qed.

Lemma filter_Subseq_impl {A : Type} (p q : A -> bool) (l : list A) :
  (forall x, In x l -> p x = true -> q x = true) ->
  Subseq (filter p l) (filter q l).
Proof.
  induction l as [|x l IH]; simpl; intros H; [constructor|].
  assert (IH' : Subseq (filter p l) (filter q l)).
  { apply IH. intros y Hy. apply H. right. exact Hy. }
  destruct (p x) eqn:Ep.
  - rewrite (H x (or_introl eq_refl) Ep). constructor. exact IH'.
  - destruct (q x); [constructor|]; exact IH'.
Qed.

(** X8: widening the slider never removes a row: with the same
    multiselect choices, the view for a range is a sub-sequence of the
    view for any range that contains it. *)
Theorem wider_range_keeps_rows (df : DataFrame) (sp isl sx : list string)
        (lo hi lo' hi' : Q) :
  lo' <= lo -> hi <= hi' ->
  Subseq (df_selection df (mkSidebar sp isl sx (lo, hi)))
         (df_selection df (mkSidebar sp isl sx (lo', hi'))).
Proof.
  intros Hlo Hhi. rewrite !df_selection_filter.
  apply filter_Subseq_impl. intros r _. unfold matchesb, mass_test. simpl.
  rewrite !andb_true_iff, !Qle_bool_iff.
  intros [[[H1 H2] H3] [H4 H5]]. repeat split; try assumption.
  - eapply Qle_trans; eassumption.
  - eapply Qle_trans; eassumption.
Qed.

Lemma wider_range_keeps_rows_witness :
  3000 <= 4000 /\ 4600 <= 5000 /\
  Subseq (df_selection scenario_df (mkSidebar [] [] [] (4000, 4600)))
         (df_selection scenario_df (mkSidebar [] [] [] (3000, 5000))).
Proof.
  split; [discriminate|]. split; [discriminate|].
  apply (wider_range_keeps_rows scenario_df [] [] [] 4000 4600 3000 5000);
    discriminate.
Defined.

Lemma same_members_nil {A : Type} (l l' : list A) :
  (forall v, In v l <-> In v l') -> truthy l = truthy l'.
Proof.
  intros H. destruct l as [|x l], l' as [|y l']; try reflexivity.
  - destruct (proj2 (H y) (or_introl eq_refl)).
  - destruct (proj1 (H x) (or_introl eq_refl)).
Qed.

Lemma cat_test_same_members (sel sel' : list string) (v : string) :
  (forall w, In w sel <-> In w sel') -> cat_test sel v = cat_test sel' v.
Proof.
  intros H. unfold cat_test. rewrite (same_members_nil sel sel' H).
  destruct (truthy sel'); [|reflexivity].
  apply eq_true_iff_eq. rewrite !existsb_eqb_In. apply H.
Qed.

(** X9: the view depends on which options are chosen, not on the order in
    which the user picked them nor on repetitions: two sidebar states
    whose multiselects hold the same values give the same view. *)
Theorem selection_order_irrelevant (df : DataFrame)
        (sp sp' isl isl' sx sx' : list string) (rng : Q * Q) :
  (forall v, In v sp <-> In v sp') ->
  (forall v, In v isl <-> In v isl') ->
  (forall v, In v sx <-> In v sx') ->
  df_selection df (mkSidebar sp isl sx rng)
  = df_selection df (mkSidebar sp' isl' sx' rng).
Proof.
  intros H1 H2 H3. rewrite !df_selection_filter. apply filter_ext.
  intros r. unfold matchesb. simpl.
  rewrite (cat_test_same_members sp sp' _ H1),
    (cat_test_same_members isl isl' _ H2),
    (cat_test_same_members sx sx' _ H3).
  reflexivity.
Qed.

Lemma selection_order_irrelevant_witness :
  (forall v, In v ["Adelie"; "Gentoo"]%string
             <-> In v ["Gentoo"; "Adelie"; "Gentoo"]%string) /\
  df_selection scenario_df
    (mkSidebar ["Adelie"; "Gentoo"]%string [] [] (3000, 5000))
  = df_selection scenario_df
      (mkSidebar ["Gentoo"; "Adelie"; "Gentoo"]%string [] [] (3000, 5000)).
Proof.
  assert (H : forall v, In v ["Adelie"; "Gentoo"]%string
                        <-> In v ["Gentoo"; "Adelie"; "Gentoo"]%string)
    by (intros v; simpl; tauto).
  split; [exact H|].
  apply (selection_order_irrelevant scenario_df
           ["Adelie"; "Gentoo"]%string ["Gentoo"; "Adelie"; "Gentoo"]%string
           [] [] [] [] (3000, 5000) H);
    intros v; simpl; tauto.
Defined.

Lemma filter_none {A : Type} (p : A -> bool) (l : list A) :
  (forall x, In x l -> p x = false) -> filter p l = [].
Proof.
  induction l as [|x l IH]; simpl; intros H; [reflexivity|].
  rewrite (H x (or_introl eq_refl)). apply IH.
  intros y Hy. apply H. right. exact Hy.
Qed.

(** X10: choosing only values that no row has is not an error: the view
    is empty, the run shows the warning and stops. *)
Theorem absent_selection_warns (df : DataFrame) (sb : Sidebar) :
  sel_species sb <> [] ->
  (forall v, In v (sel_species sb) -> ~ In v (column species df)) ->
  df_selection df sb = [] /\
  elements (app df sb)
  = [warning "No data available for the selected filters. Please adjust your selection."] /\
  stopped (app df sb) = true.
Proof.
  intros Hne Habs.
  assert (Hnil : df_selection df sb = []).
  { rewrite df_selection_filter. apply filter_none. intros r Hr.
    unfold matchesb.
    assert (Hc : cat_test (sel_species sb) (species r) = false).
    { apply not_true_iff_false. intros Hc. apply cat_test_spec in Hc.
      destruct Hc as [Hc|Hc]; [contradiction|].
      apply (Habs _ Hc). unfold column. apply in_map, Hr. }
    rewrite Hc. reflexivity. }
  split; [exact Hnil|]. unfold app. rewrite Hnil. split; reflexivity.
Qed.

Lemma absent_selection_warns_witness :
  ["Chinstrap"%string] <> [] /\
  (forall v, In v ["Chinstrap"%string] -> ~ In v (column species scenario_df)) /\
  df_selection scenario_df (mkSidebar ["Chinstrap"%string] [] [] (3000, 5000)) = [] /\
  elements (app scenario_df (mkSidebar ["Chinstrap"%string] [] [] (3000, 5000)))
  = [warning "No data available for the selected filters. Please adjust your selection."] /\
  stopped (app scenario_df (mkSidebar ["Chinstrap"%string] [] [] (3000, 5000)))
  = true.
Proof.
  assert (H : forall v, In v ["Chinstrap"%string]
                        -> ~ In v (column species scenario_df))
    by (intros v [<-|[]] [H|[H|[]]]; discriminate H).
  split; [discriminate|]. split; [exact H|].
  apply (absent_selection_warns scenario_df
           (mkSidebar ["Chinstrap"%string] [] [] (3000, 5000)));
    [discriminate | exact H].
Defined.

Lemma Subseq_length {A : Type} (l1 l2 : list A) :
  Subseq l1 l2 -> (List.length l1 <= List.length l2)%nat.
Proof. induction 1; simpl; lia. Qed.

(** X11: whenever the "Total Penguins" metric is shown, its value is the
    number of rows of the view, at least 1 and at most the size of the
    dataset, and it is also the row count shown under the raw data. *)
Theorem total_penguins_bounds (df : DataFrame) (sb : Sidebar) (v : MetricValue) :
  metric_value "Total Penguins" (elements (app df sb)) = Some v ->
  exists n,
    v = IntVal n /\ n = List.length (df_selection df sb) /\
    (1 <= n <= List.length df)%nat /\
    In (dimensions n) (elements (app df sb)).
Proof.
  unfold app. intros H.
  pose proof (filter_Subseq (matchesb sb) df) as Hsub.
  rewrite <- df_selection_filter in Hsub. apply Subseq_length in Hsub.
  destruct (df_selection df sb) as [|r d]; [discriminate H|].
  rewrite render_nonempty in *. cbn [elements] in *.
  injection H as <-. eexists. split; [reflexivity|]. split; [reflexivity|].
  split; [simpl in *; lia|]. do 6 right. left. reflexivity.
Qed.

Lemma total_penguins_bounds_witness :
  metric_value "Total Penguins" (elements (app scenario_df scenario_sidebar))
  = Some (IntVal 1) /\
  exists n,
    IntVal 1 = IntVal n /\
    n = List.length (df_selection scenario_df scenario_sidebar) /\
    (1 <= n <= List.length scenario_df)%nat /\
    In (dimensions n) (elements (app scenario_df scenario_sidebar)).
Proof.
  split; [reflexivity|].
  apply (total_penguins_bounds scenario_df scenario_sidebar (IntVal 1)).
  reflexivity.
Defined.

(** ** Metrics *)

Lemma round_ndigits_1_monotone (p q : Q) :
  p <= q -> round_ndigits p 1 <= round_ndigits q 1.
Proof.
  intros H. rewrite !round_ndigits_1.
  assert (Hr : (rint (p * 10) <= rint (q * 10))%Z) by (apply rint_monotone; lra).
  rewrite Zle_Qle in Hr. unfold Qdiv. change (/ 10) with (1 # 10). lra.
Qed.

Lemma round_ndigits_1_Z (z : Z) : round_ndigits (inject_Z z) 1 == inject_Z z.
Proof.
  rewrite round_ndigits_1.
  assert (H : rint (inject_Z z * 10) = (z * 10)%Z).
  { rewrite <- rint_Z. apply rint_comp. rewrite inject_Z_mult. reflexivity. }
  rewrite H, inject_Z_mult. change (inject_Z 10) with 10.
  unfold Qdiv. change (/ 10) with (1 # 10). lra.
Qed.

(** ** The bar chart *)

(** X14: every bar lies inside the range chosen on the slider: with the
    integer bounds that the slider returns, the value of each entry of the
    aggregate is a number between the two bounds. *)
Theorem bars_within_slider (df : DataFrame) (sp isl sx : list string)
        (a b : Z) (k : string) (v : float) :
  In (k, v)
     (avg_mass_by_species
        (df_selection df (mkSidebar sp isl sx (inject_Z a, inject_Z b)))) ->
  exists q, v = Some q /\ inject_Z a <= q /\ q <= inject_Z b.
Proof.
  set (sb := mkSidebar sp isl sx (inject_Z a, inject_Z b)).
  intros Hkv. apply avg_mass_by_species_entry in Hkv. destruct Hkv as [Hk ->].
  set (group := rows_of_species k (df_selection df sb)).
  destruct (mean_nonempty (column body_mass_g group)) as [m [Hm _]].
  { pose proof (rows_of_species_nonempty _ k Hk) as Hne. fold group in Hne.
    destruct group; [congruence | discriminate]. }
  assert (Hb : inject_Z a <= m /\ m <= inject_Z b).
  { apply (mean_bounds (column body_mass_g group)); [|exact Hm].
    intros w Hw. unfold column in Hw. apply in_map_iff in Hw.
    destruct Hw as [r [<- Hr]]. unfold group, rows_of_species in Hr.
    apply filter_In in Hr. destruct Hr as [Hr _].
    apply in_df_selection in Hr. destruct Hr as [_ Hr].
    unfold matchesb in Hr. apply andb_true_iff in Hr. destruct Hr as [_ Hr].
    apply mass_test_spec in Hr. exact Hr. }
  destruct Hb as [Hb1 Hb2].
  exists (round_ndigits m 1). fold group. rewrite Hm. split; [reflexivity|].
  split.
  - rewrite <- (round_ndigits_1_Z a). apply round_ndigits_1_monotone, Hb1.
  - rewrite <- (round_ndigits_1_Z b). apply round_ndigits_1_monotone, Hb2.
Qed.

Lemma bars_within_slider_witness :
  In ("Adelie"%string, Some 3750)
     (avg_mass_by_species
        (df_selection scenario_df
           (mkSidebar [] [] [] (inject_Z 3000, inject_Z 5000)))) /\
  exists q, Some 3750 = Some q /\ inject_Z 3000 <= q /\ q <= inject_Z 5000.
Proof.
  assert (H : In ("Adelie"%string, Some 3750)
                 (avg_mass_by_species
                    (df_selection scenario_df
                       (mkSidebar [] [] [] (inject_Z 3000, inject_Z 5000)))))
    by (left; reflexivity).
  split; [exact H|].
  exact (bars_within_slider scenario_df [] [] [] 3000 5000 "Adelie" (Some 3750) H).
Defined.

Section GroupSizes.

Variable key : Row -> string.

Lemma list_sum_map_add {A : Type} (f g : A -> nat) (l : list A) :
  list_sum (map (fun x => (f x + g x)%nat) l)
  = (list_sum (map f l) + list_sum (map g l))%nat.
Proof. induction l as [|x l IH]; simpl; [reflexivity | lia]. Qed.

Lemma indicator_sum_absent (v : string) (ks : list string) :
  ~ In v ks ->
  list_sum (map (fun k => if String.eqb v k then 1%nat else 0%nat) ks) = 0%nat.
Proof.
  induction ks as [|k ks IH]; simpl; intros H; [reflexivity|].
  destruct (String.eqb_spec v k) as [->|_]; [exfalso; apply H; left; reflexivity|].
  apply IH. intros Hin. apply H. right. exact Hin.
Qed.

Lemma indicator_sum_present (v : string) (ks : list string) :
  NoDup ks -> In v ks ->
  list_sum (map (fun k => if String.eqb v k then 1%nat else 0%nat) ks) = 1%nat.
Proof.
  induction 1 as [|k ks Hk Hnd IH]; simpl; intros Hin; [destruct Hin|].
  destruct (String.eqb_spec v k) as [->|Hne].
  - rewrite indicator_sum_absent by exact Hk. reflexivity.
  - destruct Hin as [->|Hin]; [congruence|]. apply IH, Hin.
Qed.

Lemma list_sum_zero {A : Type} (l : list A) :
  list_sum (map (fun _ => 0%nat) l) = 0%nat.
Proof. induction l as [|x l IH]; simpl; [reflexivity | exact IH]. Qed.

Lemma group_sizes_sum (ks : list string) (d : DataFrame) :
  NoDup ks ->
  (forall r, In r d -> In (key r) ks) ->
  list_sum (map (fun k => List.length (filter (fun r => String.eqb (key r) k) d)) ks)
  = List.length d.
Proof.
  intros Hnd. induction d as [|r d IH]; intros Hall.
  - simpl. apply list_sum_zero.
  - rewrite (map_ext _ (fun k => ((if String.eqb (key r) k then 1 else 0)
                                  + List.length (filter (fun r => String.eqb (key r) k) d))%nat)).
    + rewrite list_sum_map_add, indicator_sum_present, IH.
      * reflexivity.
      * intros x Hx. apply Hall. right. exact Hx.
      * exact Hnd.
      * apply Hall. left. reflexivity.
    + intros k. simpl. destruct (String.eqb (key r) k); reflexivity.
Qed.

End GroupSizes.

(** X15: [groupby] partitions the frame: the groups are not empty, every
    row of the frame is in the group of its key and in no other, and the
    sizes of the groups add up to the number of rows. *)
Theorem groupby_partitions (key : Row -> string) (d : DataFrame) :
  Forall (fun g => snd g <> []) (groupby key d) /\
  (forall r k rows, In (k, rows) (groupby key d) ->
                    (In r rows <-> In r d /\ key r = k)) /\
  (forall r, In r d -> exists rows, In (key r, rows) (groupby key d)) /\
  list_sum (map (fun g => List.length (snd g)) (groupby key d)) = List.length d.
Proof.
  assert (Hkeys : forall k, In k (sort_keys (unique (column key d)))
                            <-> In k (column key d)).
  { intros k. split; intros H.
    - apply unique_In. eapply Permutation_in; [|exact H].
      apply Permutation_sym, sort_keys_perm.
    - eapply Permutation_in; [apply sort_keys_perm | apply unique_In, H]. }
  unfold groupby. split; [|split; [|split]].
  - apply Forall_forall. intros g Hg. apply in_map_iff in Hg.
    destruct Hg as [k [<- Hk]]. simpl. apply Hkeys in Hk.
    unfold column in Hk. apply in_map_iff in Hk. destruct Hk as [r [Hr1 Hr2]].
    intros Hnil.
    assert (Hin : In r (filter (fun r => String.eqb (key r) k) d)).
    { apply filter_In. split; [exact Hr2 | apply String.eqb_eq, Hr1]. }
    rewrite Hnil in Hin. exact Hin.
  - intros r k rows Hg. apply in_map_iff in Hg. destruct Hg as [k' [Heq _]].
    injection Heq as -> <-. rewrite filter_In, String.eqb_eq. reflexivity.
  - intros r Hr. eexists. apply in_map_iff. exists (key r). split; [reflexivity|].
    apply Hkeys. unfold column. apply in_map, Hr.
  - rewrite map_map. simpl. apply group_sizes_sum.
    + eapply Permutation_NoDup; [apply sort_keys_perm | apply unique_NoDup].
    + intros r Hr. apply Hkeys. unfold column. apply in_map, Hr.
Qed.




(** ** Choosing among the offered options *)

(** X17: a choice made among the species that the multiselect offers never
    leads to the warning by itself: with at least one offered species
    chosen, nothing chosen for island and sex and a range that covers the
    masses of the dataset, the view has a row and the run is not stopped. *)
Theorem offered_species_never_warn (df : DataFrame) (sp : list string)
        (rng : Q * Q) :
  sp <> [] ->
  (forall v, In v sp -> In v (unique (column species df))) ->
  (forall m, In m (column body_mass_g df) -> in_mass_range rng m) ->
  df_selection df (mkSidebar sp [] [] rng) <> [] /\
  stopped (app df (mkSidebar sp [] [] rng)) = false.
Proof.
  intros Hne Hoff Hcov.
  assert (Hview : df_selection df (mkSidebar sp [] [] rng) <> []).
  { destruct sp as [|v sp]; [congruence|].
    pose proof (Hoff v (or_introl eq_refl)) as Hv.
    apply (proj1 (unique_In _ _)) in Hv. unfold column in Hv.
    apply in_map_iff in Hv. destruct Hv as [r [Hr1 Hr2]].
    assert (Hin : In r (df_selection df (mkSidebar (v :: sp) [] [] rng))).
    { apply in_df_selection. split; [exact Hr2|]. apply matchesb_spec.
      repeat split; simpl.
      - right. left. symmetry. exact Hr1.
      - left. reflexivity.
      - left. reflexivity.
      - apply Hcov. unfold column. apply in_map, Hr2.
      - apply Hcov. unfold column. apply in_map, Hr2. }
    intros Hnil. rewrite Hnil in Hin. exact Hin. }
  split; [exact Hview|]. unfold app.
  destruct (df_selection df (mkSidebar sp [] [] rng)); [congruence | reflexivity].
Qed.

Lemma offered_species_never_warn_witness :
  ["Gentoo"%string] <> [] /\
  (forall v, In v ["Gentoo"%string] -> In v (unique (column species scenario_df))) /\
  (forall m, In m (column body_mass_g scenario_df) -> in_mass_range (3750, 4500) m) /\
  df_selection scenario_df (mkSidebar ["Gentoo"%string] [] [] (3750, 4500)) <> [] /\
  stopped (app scenario_df (mkSidebar ["Gentoo"%string] [] [] (3750, 4500))) = false.
Proof.
  assert (H1 : forall v, In v ["Gentoo"%string]
                         -> In v (unique (column species scenario_df)))
    by (intros v [<-|[]]; right; left; reflexivity).
  assert (H2 : forall m, In m (column body_mass_g scenario_df)
                         -> in_mass_range (3750, 4500) m)
    by (intros m [<-|[<-|[]]]; split; discriminate).
  split; [discriminate|]. split; [exact H1|]. split; [exact H2|].
  apply (offered_species_never_warn scenario_df ["Gentoo"%string] (3750, 4500));
    [discriminate | exact H1 | exact H2].
Defined.
